(** * circdown: the firmware catalog client, embedded and verified

    A shallow embedding of [circdown.py]: the file-name parser
    ([ImageInfo.from_url]), the version classifier ([is_release],
    [is_full_release], ...), the catalog queries of [FirmwareDownloader]
    and the selection performed by the [get] command of [main].

    Python values are modelled as follows.
    - [str] is [string]; characters are compared by code, as Python does.
    - An exception is a value of [exn]; a computation that may raise
      returns a [result].
    - A generator is the trace it produces: the values it yields, and the
      exception that ends it, if any.
    - The functions of [urllib] ([urlparse], [urljoin]) and the bucket
      behind [S3.list] are parameters of the development. *)

From Stdlib Require Import String Ascii List ZArith Bool Lia.
Import ListNotations.
Local Open Scope list_scope.
Local Open Scope string_scope.

(** ** Exceptions *)

Inductive exn : Set :=
| AttributeError   (* [None.groups()], [None.date()] *)
| ValueError       (* not enough values to unpack *)
| IndexError.      (* list index out of range *)

Inductive result (A : Type) : Type :=
| OK (a : A)
| Raise (e : exn).

Arguments OK {A} a.
Arguments Raise {A} e.

Definition bind {A B : Type} (m : result A) (f : A -> result B) : result B :=
  match m with
  | OK a => f a
  | Raise e => Raise e
  end.

Notation "x <- m ;; k" := (bind m (fun x => k))
  (at level 61, m at next level, right associativity).

(** A list comprehension whose element expression may raise: the elements
    are evaluated from left to right and the first exception ends it. *)
Fixpoint comprehension {A B : Type} (f : A -> result B) (l : list A)
  : result (list B) :=
  match l with
  | [] => OK []
  | x :: rest =>
      y <- f x ;;
      ys <- comprehension f rest ;;
      OK (y :: ys)
  end.

(** ** The [str] methods the program uses *)

Module Str.

Definition newline : ascii := "010"%char.

Definition is_digit (c : ascii) : bool :=
  (("0" <=? c) && (c <=? "9"))%char.

Definition is_letter (c : ascii) : bool :=
  ((("A" <=? c) && (c <=? "Z")) || (("a" <=? c) && (c <=? "z")))%char.

Definition is_alnum (c : ascii) : bool := is_digit c || is_letter c.

(** [s.startswith(p)] *)
Fixpoint startswith (s p : string) : bool :=
  match p, s with
  | EmptyString, _ => true
  | String a p', String b s' => Ascii.eqb a b && startswith s' p'
  | String _ _, EmptyString => false
  end.

(** [sub in s] *)
Fixpoint contains (sub s : string) : bool :=
  startswith s sub ||
  match s with
  | EmptyString => false
  | String _ s' => contains sub s'
  end.

(** [s.endswith(p)] *)
Fixpoint endswith (s p : string) : bool :=
  String.eqb s p ||
  match s with
  | EmptyString => false
  | String _ s' => endswith s' p
  end.

(** [s.split(sep)] for a one-character separator: never empty. *)
Fixpoint split (sep : ascii) (s : string) : list string :=
  match s with
  | EmptyString => [""]
  | String c r =>
      if Ascii.eqb c sep then "" :: split sep r
      else match split sep r with
           | h :: t => String c h :: t
           | [] => [String c ""]
           end
  end.

(** [s.split(sep, maxsplit)]: only the first [maxsplit] separators cut. *)
Fixpoint split_max (sep : ascii) (s : string) (maxsplit : nat) {struct s}
  : list string :=
  match maxsplit, s with
  | O, _ => [s]
  | S _, EmptyString => [""]
  | S n, String c r =>
      if Ascii.eqb c sep then "" :: split_max sep r n
      else match split_max sep r maxsplit with
           | h :: t => String c h :: t
           | [] => [String c ""]
           end
  end.

(** [l[-1]] and [l[-2]] *)
Definition item_m1 (l : list string) : result string :=
  match rev l with
  | x :: _ => OK x
  | [] => Raise IndexError
  end.

Definition item_m2 (l : list string) : result string :=
  match rev l with
  | _ :: x :: _ => OK x
  | _ => Raise IndexError
  end.

(** The number of occurrences of a character. *)
Fixpoint count (c : ascii) (s : string) : nat :=
  match s with
  | EmptyString => 0
  | String a r => (if Ascii.eqb a c then 1 else 0) + count c r
  end.

(** [c] does not occur in [s]. *)
Definition free_of (c : ascii) (s : string) : Prop := count c s = 0.

End Str.

(** ** Dates and times *)

Record date : Set := mkdate { year : Z; month : Z; day : Z }.

Record datetime : Set := mkdatetime {
  dt_date : date;          (* year, month, day *)
  hour : Z; minute : Z; second : Z; microsecond : Z;
  utcoffset : Z            (* tzinfo, in seconds *)
}.

(** [mdate.date()] keeps the calendar fields and drops time and zone. *)
Definition datetime_date (d : datetime) : date := dt_date d.

(** ** Rich comparison

    [sorted] compares keys with [<]; tuples compare by the first position
    where the components differ ([==]), then by [<] there. *)

Class PyOrd (K : Type) : Type := {
  py_eq : K -> K -> bool;
  py_lt : K -> K -> bool
}.

#[export] Instance PyOrd_Z : PyOrd Z := {| py_eq := Z.eqb; py_lt := Z.ltb |}.

#[export] Instance PyOrd_str : PyOrd string :=
  {| py_eq := String.eqb; py_lt := String.ltb |}.

#[export] Instance PyOrd_tuple {A B : Type} `{PyOrd A} `{PyOrd B}
  : PyOrd (A * B) :=
  {| py_eq := fun x y => py_eq (fst x) (fst y) && py_eq (snd x) (snd y);
     py_lt := fun x y => if py_eq (fst x) (fst y)
                         then py_lt (snd x) (snd y)
                         else py_lt (fst x) (fst y) |}.

(** A date compares as the tuple (year, month, day). *)
#[export] Instance PyOrd_date : PyOrd date :=
  {| py_eq := fun a b => py_eq (year a, (month a, day a))
                               (year b, (month b, day b));
     py_lt := fun a b => py_lt (year a, (month a, day a))
                               (year b, (month b, day b)) |}.

(** A triple [(a, b, c)] compares as [(a, (b, c))]. *)
Definition triple {A B C : Type} (a : A) (b : B) (c : C) : A * (B * C) :=
  (a, (b, c)).

(** ** [sorted(iterable, key=..., reverse=...)]

    The sort is stable.  [insort] puts an element behind every element
    that is not greater, which is where binary insertion puts it; with
    [reverse=True] the list is reversed, sorted and reversed again, so
    that equal keys keep their original order in both directions. *)

Section Sorted.

Context {A K : Type} `{PyOrd K}.
Variable key : A -> K.

Fixpoint insort (x : A) (acc : list A) : list A :=
  match acc with
  | [] => [x]
  | y :: rest =>
      if py_lt (key x) (key y) then x :: y :: rest
      else y :: insort x rest
  end.

Definition sort_stable (l : list A) : list A :=
  fold_left (fun acc x => insort x acc) l [].

Definition sort_keyed (reverse : bool) (l : list A) : list A :=
  if reverse then rev (sort_stable (rev l)) else sort_stable l.

End Sorted.

(** The keys are computed first, one call per element, in order; a key
    function that raises ends the sort before anything is compared. *)
Definition sorted {A K : Type} `{PyOrd K}
    (l : list A) (key : A -> result K) (reverse : bool) : result (list A) :=
  decorated <- comprehension (fun x => k <- key x ;; OK (k, x)) l ;;
  OK (map snd (sort_keyed fst reverse decorated)).

(** ** [class ImageInfo] *)

Module ImageInfo.

Record t : Set := mk {
  name : string;
  url : string;
  size : option Z;
  mdate : option datetime;
  board : string;
  language : string;
  version : string;
  type : string
}.

(** *** The three patterns

    Each pattern is written as the scanner that [re.match] amounts to on
    it.  In all three a repetition is followed by something its own
    characters cannot start, so giving characters back never helps and
    the greedy scan decides the match.  [$] matches at the end of the
    string and also just before a newline that ends it. *)

(** [RELEASE_REGEX = ^[0-9]+(?:\.[0-9]+)+]: a match needs a run of
    digits, a dot and one more digit; what follows is free. *)
Inductive release_state : Set :=
| FirstDigit      (* at [^]: a digit must come *)
| FirstRun        (* inside the leading [[0-9]+] *)
| DigitAfterDot.  (* after the first [\.]: a digit completes a match *)

Fixpoint release_scan (st : release_state) (s : string) : bool :=
  match s with
  | EmptyString => false
  | String c r =>
      match st with
      | FirstDigit => Str.is_digit c && release_scan FirstRun r
      | FirstRun =>
          if Str.is_digit c then release_scan FirstRun r
          else Ascii.eqb c "." && release_scan DigitAfterDot r
      | DigitAfterDot => Str.is_digit c
      end
  end.

Definition RELEASE_REGEX_match (s : string) : bool :=
  release_scan FirstDigit s.

(** [FULL_RELEASE_REGEX = ^[0-9]+(?:\.[0-9]+)*$] *)
Inductive full_state : Set :=
| NeedDigit   (* at [^] or after a dot *)
| InDigits.   (* inside a [[0-9]+] *)

Fixpoint full_scan (st : full_state) (s : string) : bool :=
  match s with
  | EmptyString =>
      match st with InDigits => true | NeedDigit => false end
  | String c r =>
      match st with
      | NeedDigit => Str.is_digit c && full_scan InDigits r
      | InDigits =>
          if Str.is_digit c then full_scan InDigits r
          else if Ascii.eqb c "." then full_scan NeedDigit r
          else Ascii.eqb c Str.newline && String.eqb r ""
      end
  end.

Definition FULL_RELEASE_REGEX_match (s : string) : bool :=
  full_scan NeedDigit s.

(** [FILETYPE_REGEX = ^(.*?)((?:G)+)$] where [G] stands for one
    extension segment, [\.[A-Za-z][0-9A-Za-z]*].

    [suffix_scan] matches the second group up to [$] and returns the
    text of the group. *)
Inductive suffix_state : Set :=
| NeedDot      (* at the start of the group *)
| NeedLetter   (* after a dot *)
| InSegment.   (* inside [[0-9A-Za-z]*] *)

Fixpoint suffix_scan (st : suffix_state) (s : string) : option string :=
  match s with
  | EmptyString =>
      match st with InSegment => Some "" | _ => None end
  | String c r =>
      match st with
      | NeedDot =>
          if Ascii.eqb c "." then option_map (String c) (suffix_scan NeedLetter r)
          else None
      | NeedLetter =>
          if Str.is_letter c then option_map (String c) (suffix_scan InSegment r)
          else None
      | InSegment =>
          if Str.is_alnum c then option_map (String c) (suffix_scan InSegment r)
          else if Ascii.eqb c "." then option_map (String c) (suffix_scan NeedLetter r)
          else if Ascii.eqb c Str.newline && String.eqb r "" then Some ""
          else None
      end
  end.

(** The first group is lazy: the shortest stem is tried first and grows
    by one character, never a newline, while the rest does not match.
    The result is [match.groups()], or [None]. *)
Fixpoint FILETYPE_REGEX_match (s : string) : option (string * string) :=
  match suffix_scan NeedDot s with
  | Some ty => Some ("", ty)
  | None =>
      match s with
      | EmptyString => None
      | String c r =>
          if Ascii.eqb c Str.newline then None
          else option_map (fun g => (String c (fst g), snd g))
                          (FILETYPE_REGEX_match r)
      end
  end.

(** *** Properties *)

Definition is_rc (i : t) : bool := Str.contains "rc" (version i).
Definition is_alpha (i : t) : bool := Str.contains "alpha" (version i).

(** The match object, as its truth value. *)
Definition is_release (i : t) : bool := RELEASE_REGEX_match (version i).
Definition is_full_release (i : t) : bool :=
  FULL_RELEASE_REGEX_match (version i).

(** *** [from_url] *)

Section FromUrl.

(** [requests.compat.urlparse(url).path] *)
Variable urlparse_path : string -> string.

Definition from_url (url : string) (size : option Z)
    (mdate : option datetime) : result t :=
  filename <- Str.item_m1 (Str.split "/" (urlparse_path url)) ;;
  match FILETYPE_REGEX_match filename with
  | None => Raise AttributeError      (* [None.groups()] *)
  | Some (stem, ty) =>
      match Str.split_max "-" stem 4 with
      | [_; _; b; l; v] => OK (mk filename url size mdate b l v ty)
      | _ => Raise ValueError         (* fewer than five fields *)
      end
  end.

End FromUrl.

End ImageInfo.

(** ** [class S3] and [class FirmwareDownloader] *)

(** A listing document after decoding: each [Contents] element with its
    [Key], its [Size] as an [int] and its [LastModified] as a [datetime],
    and each [CommonPrefixes] element with its [Prefix]. *)
Record Contents : Set := mkContents {
  Key : string;
  Size : Z;
  LastModified : datetime
}.

Record document : Set := mkdocument {
  contents : list Contents;
  common_prefixes : list string
}.

(** A generator, as the trace of one full iteration. *)
Record trace (A : Type) : Type := mktrace {
  yielded : list A;
  raised : option exn
}.

Arguments mktrace {A} yielded raised.
Arguments yielded {A} t.
Arguments raised {A} t.

Definition yield_then {A : Type} (a : A) (t : trace A) : trace A :=
  mktrace (a :: yielded t) (raised t).

Module FirmwareDownloader.

Section Bucket.

(** [requests.compat.urlparse(url).path] and [requests.compat.urljoin] *)
Variable urlparse_path : string -> string.
Variable urljoin : string -> string -> string.

(** [self._bucket_url], and the document [super().list(path)] returns. *)
Variable bucket_url : string.
Variable s3_list : string -> document.

Definition parse_contents (doc : document)
  : list (string * Z * datetime) :=
  map (fun cont => (urljoin bucket_url (Key cont), Size cont, LastModified cont))
      (contents doc).

Definition parse_common_prefixes (doc : document) : list string :=
  map (fun prefix => urljoin bucket_url prefix) (common_prefixes doc).

(** [search is None or search in key] *)
Definition search_matches (search : option string) (s : string) : bool :=
  match search with
  | None => true
  | Some sub => Str.contains sub s
  end.

(** The loop shared by [list_boards] and [list_languages]. *)
Fixpoint yield_names (search : option string) (keys : list string)
  : trace string :=
  match keys with
  | [] => mktrace [] None
  | key :: rest =>
      if search_matches search key then
        match Str.item_m2 (Str.split "/" key) with
        | OK segment => yield_then segment (yield_names search rest)
        | Raise e => mktrace [] (Some e)
        end
      else yield_names search rest
  end.

Definition list_boards (search : option string) : trace string :=
  let boards := s3_list "bin/" in
  yield_names search (parse_common_prefixes boards).

Definition list_languages (board : string) (search : option string)
  : trace string :=
  let languages := s3_list ("bin/" ++ board ++ "/") in
  yield_names search (parse_common_prefixes languages).

Definition list_images (board language : string)
  : result (list ImageInfo.t) :=
  let images := s3_list ("bin/" ++ board ++ "/" ++ language ++ "/") in
  comprehension
    (fun entry => match entry with
                  | (key, size, date) =>
                      ImageInfo.from_url urlparse_path key (Some size) (Some date)
                  end)
    (parse_contents images).

Fixpoint yield_versions (search : option string) (images : list ImageInfo.t)
  : list string :=
  match images with
  | [] => []
  | image :: rest =>
      if search_matches search (ImageInfo.version image) then
        if ImageInfo.is_release image
        then ImageInfo.version image :: yield_versions search rest
        else yield_versions search rest
      else yield_versions search rest
  end.

Definition list_versions (board language : string) (search : option string)
  : trace string :=
  match list_images board language with
  | Raise e => mktrace [] (Some e)
  | OK images => mktrace (yield_versions search images) None
  end.

End Bucket.

End FirmwareDownloader.

(** ** The [get] command of [main] *)

(** The parsed options of [get]. *)
Record options : Set := mkoptions {
  opt_board : string;
  opt_language : string;
  opt_version : option string;
  opt_type : option string;
  opt_prerelease : bool;
  opt_latest : bool
}.

(** The branch [get] takes at [if filtered]: the record it goes on to
    print and to hand to [download], or the message that nothing matches.
    Printing and downloading themselves are not part of the model. *)
Inductive outcome : Set :=
| Selected (selected : ImageInfo.t)
| NoImagesFound.

Module Main.

(** [if options.type and not options.type.startswith('.')]: a dot is put
    in front of a non-empty type that lacks one. *)
Definition normalize_type (ty : option string) : option string :=
  match ty with
  | Some s =>
      if negb (String.eqb s "") && negb (Str.startswith s ".")
      then Some ("." ++ s) else Some s
  | None => None
  end.

(** The three sort keys. *)
Definition mdate_date (r : ImageInfo.t) : result date :=
  match ImageInfo.mdate r with
  | Some d => OK (datetime_date d)
  | None => Raise AttributeError
  end.

Definition key_date_version (r : ImageInfo.t) : result (date * string) :=
  d <- mdate_date r ;; OK (d, ImageInfo.version r).

Definition key_type (r : ImageInfo.t) : result string :=
  OK (ImageInfo.type r).

Definition key_date (r : ImageInfo.t) : result date := mdate_date r.

Definition sort_results (images : list ImageInfo.t)
  : result (list ImageInfo.t) :=
  results <- sorted images key_date_version true ;;
  results <- sorted results key_type true ;;
  sorted results key_date true.

(** The comprehension with its three [if] clauses. *)
Fixpoint filter_results (o : options) (results : list ImageInfo.t)
  : list ImageInfo.t :=
  match results with
  | [] => []
  | img :: rest =>
      if match opt_type o with
         | None => true
         | Some ty => Str.endswith (ImageInfo.type img) ty
         end
      then
        if match opt_version o with
           | None => true
           | Some v => String.eqb (ImageInfo.version img) v
           end
        then
          if opt_prerelease o || ImageInfo.is_full_release img ||
             opt_latest o || ImageInfo.is_release img
          then img :: filter_results o rest
          else filter_results o rest
        else filter_results o rest
      else filter_results o rest
  end.

(** [if filtered: selected = filtered[0] ... else: print(...)] *)
Definition select (filtered : list ImageInfo.t) : outcome :=
  match filtered with
  | selected :: _ => Selected selected
  | [] => NoImagesFound
  end.

(** Sorting, filtering and choosing, on a list of images. *)
Definition selection (o : options) (images : list ImageInfo.t)
  : result outcome :=
  results <- sort_results images ;;
  OK (select (filter_results o results)).

Section Get.

Variable urlparse_path : string -> string.
Variable urljoin : string -> string -> string.
Variable bucket_url : string.
Variable s3_list : string -> document.

(** [get] from the normalization of the type filter to the choice of the
    record, lines 202 to 220. *)
Definition get (o : options) : result outcome :=
  let o := mkoptions (opt_board o) (opt_language o) (opt_version o)
                     (normalize_type (opt_type o))
                     (opt_prerelease o) (opt_latest o) in
  images <- FirmwareDownloader.list_images urlparse_path urljoin bucket_url s3_list
              (opt_board o) (opt_language o) ;;
  selection o images.

End Get.

End Main.

(** ** The shapes the specification speaks of *)

Module Shape.

Fixpoint all (p : ascii -> bool) (s : string) : bool :=
  match s with
  | EmptyString => true
  | String c r => p c && all p r
  end.

(** One extension segment: a dot, a letter, then letters and digits. *)
Definition segment (s : string) : bool :=
  match s with
  | String "." (String c body) => Str.is_letter c && all Str.is_alnum body
  | _ => false
  end.

(** A type suffix: one or more extension segments. *)
Inductive type_suffix : string -> Prop :=
| suffix_one (s : string) :
    segment s = true -> type_suffix s
| suffix_more (s rest : string) :
    segment s = true -> type_suffix rest -> type_suffix (s ++ rest).

(** A field between dashes: no dash, no slash, no newline. *)
Definition plain (c : ascii) : bool :=
  negb (Ascii.eqb c "-") && negb (Ascii.eqb c "/") &&
  negb (Ascii.eqb c Str.newline).

(** The version field may hold dashes. *)
Definition versionish (c : ascii) : bool :=
  negb (Ascii.eqb c "/") && negb (Ascii.eqb c Str.newline).

(** The stem of a name: the five fields joined by dashes. *)
Definition stem_of (p d board language version : string) : string :=
  p ++ "-" ++ d ++ "-" ++ board ++ "-" ++ language ++ "-" ++ version.

(** [bin/<board>/<language>/<p>-<d>-<board>-<language>-<version><type>] *)
Definition key_of (p d board language version ty : string) : string :=
  "bin/" ++ board ++ "/" ++ language ++ "/" ++
  stem_of p d board language version ++ ty.

Definition well_formed (p d board language version ty : string) : Prop :=
  all plain p = true /\ all plain d = true /\
  all plain board = true /\ all plain language = true /\
  all versionish version = true /\ type_suffix ty.

(** Some end of [s] is an extension segment. *)
Fixpoint ends_with_segment (s : string) : bool :=
  segment s ||
  match s with
  | EmptyString => false
  | String _ r => ends_with_segment r
  end.


Definition five_or_more_fields (filename : string) : Prop :=
  exists stem ty,
    filename = stem ++ ty /\ type_suffix ty /\ 4 <= Str.count "-" stem.

End Shape.

(** The filter of the selection, in the words of the specification. *)
Definition keeps (o : options) (r : ImageInfo.t) : bool :=
  match opt_type o with
  | None => true
  | Some ty => Str.endswith (ImageInfo.type r) ty
  end
  &&
  match opt_version o with
  | None => true
  | Some v => String.eqb (ImageInfo.version r) v
  end
  &&
  (opt_prerelease o || ImageInfo.is_full_release r ||
   opt_latest o || ImageInfo.is_release r).

(** The gate on releases alone. *)
Definition release_gate (o : options) (r : ImageInfo.t) : bool :=
  opt_prerelease o || ImageInfo.is_full_release r ||
  opt_latest o || ImageInfo.is_release r.

(** The options with the two flags exchanged. *)
Definition swap_flags (o : options) : options :=
  mkoptions (opt_board o) (opt_language o) (opt_version o) (opt_type o)
            (opt_latest o) (opt_prerelease o).

(** One descending sort by the triple (date, type, version). *)
Definition key_date_type_version (r : ImageInfo.t)
  : result (date * (string * string)) :=
  d <- Main.mdate_date r ;;
  OK (triple d (ImageInfo.type r) (ImageInfo.version r)).

Definition sort_by_triple (images : list ImageInfo.t)
  : result (list ImageInfo.t) :=
  sorted images key_date_type_version true.

(** ** [urllib] on plain URLs

    What [urlparse(url).path] and [urljoin(base, key)] give on the URLs
    of the bucket: a URL [scheme://host/path] without query or fragment,
    a base without a path, and a key that is a relative path.  The
    theorems hold for any pair of functions; these two serve as
    instances. *)

Module Urllib.

Fixpoint from_slash (s : string) : string :=
  match s with
  | EmptyString => ""
  | String c r => if Ascii.eqb c "/" then s else from_slash r
  end.

Fixpoint after_scheme (s : string) : option string :=
  match s with
  | String ":" (String "/" (String "/" r)) => Some r
  | String _ r => after_scheme r
  | EmptyString => None
  end.

Definition path (url : string) : string :=
  match after_scheme url with
  | Some r => from_slash r
  | None => url
  end.

Definition join (base key : string) : string := base ++ "/" ++ key.

End Urllib.

Definition bucket_url : string :=
  "https://adafruit-circuit-python.s3.amazonaws.com".

Class PyOrdLaws (K : Type) `{PyOrd K} : Prop := {
  eq_spec : forall a b : K, py_eq a b = true <-> a = b;
  lt_irrefl : forall a : K, py_lt a a = false;
  lt_trans : forall a b c : K,
      py_lt a b = true -> py_lt b c = true -> py_lt a c = true;
  lt_total : forall a b : K,
      py_lt a b = false -> py_lt b a = false -> a = b
}.

Definition suffix_char (c : ascii) : bool := Ascii.eqb c "." || Str.is_alnum c.

(** What a successful scan has read, from each state. *)
Definition scanned (st : ImageInfo.suffix_state) (s : string) : Prop :=
  match st with
  | ImageInfo.NeedDot => Shape.type_suffix s
  | ImageInfo.NeedLetter => Shape.type_suffix (String "." s)
  | ImageInfo.InSegment =>
      forall pre, Shape.segment pre = true -> Shape.type_suffix (pre ++ s)
  end.

(** The part of a segment read before a state is entered. *)
Definition read_so_far (st : ImageInfo.suffix_state) (pre : string) : Prop :=
  match st with
  | ImageInfo.NeedDot => pre = ""
  | ImageInfo.NeedLetter => pre = "."
  | ImageInfo.InSegment => Shape.segment pre = true
  end.

Definition date_tuple (a : date) : Z * (Z * Z) := (year a, (month a, day a)).

(** ** The notions the sort proofs use *)

Section SortNotions.

Context {A K : Type} `{PyOrd K}.
Variable key : A -> K.

(** The sort of a reversed list, by recursion on the list itself. *)
Definition isort (l : list A) : list A :=
  fold_right (fun x acc => insort key x acc) [] l.

(** [x] is not greater than [y]. *)
Definition le (x y : A) : Prop := py_lt (key y) (key x) = false.

(** What an earlier order [R] leaves behind: among equal keys the
    earlier order survives, reversed. *)
Definition refined (R : A -> A -> Prop) (a b : A) : Prop :=
  py_lt (key a) (key b) = true \/ (key a = key b /\ R b a).

Definition decorate (x : A) : K * A := (key x, x).

End SortNotions.

Section KeyTuples.

Context {A KD KT KV : Type}.
Variable d : A -> KD.
Variable t : A -> KT.
Variable v : A -> KV.

Definition by_dv (x : A) : KD * KV := (d x, v x).
Definition by_dtv (x : A) : KD * (KT * KV) := triple (d x) (t x) (v x).

End KeyTuples.

(** The date of a record that has one. *)
Definition date_of (r : ImageInfo.t) : date :=
  match ImageInfo.mdate r with
  | Some dt => datetime_date dt
  | None => mkdate 0 0 0
  end.

Definition dated (r : ImageInfo.t) : Prop := ImageInfo.mdate r <> None.

(** A record is kept: in the words of the specification. *)
Definition Keeps (o : options) (r : ImageInfo.t) : Prop :=
  (opt_type o = None \/
   exists ty a, opt_type o = Some ty /\ ImageInfo.type r = a ++ ty) /\
  (opt_version o = None \/ opt_version o = Some (ImageInfo.version r)) /\
  (opt_prerelease o = true \/ ImageInfo.is_full_release r = true \/
   opt_latest o = true \/ ImageInfo.is_release r = true).

Definition sample_time : datetime :=
  mkdatetime (mkdate 2023 2 14) 10 30 0 0 0.

Definition later_time : datetime :=
  mkdatetime (mkdate 2023 3 1) 8 0 0 0 0.

Definition sample_bucket (path : string) : document :=
  if String.eqb path "bin/" then
    mkdocument [] ["bin/feather_m4_express/"; "bin/pyportal/"]
  else if String.eqb path "bin/pyportal/" then
    mkdocument [] ["bin/pyportal/de_DE/"; "bin/pyportal/en_US/"]
  else
    mkdocument
      [ mkContents
          "bin/pyportal/en_US/adafruit-circuitpython-pyportal-en_US-7.3.1.uf2"
          1024 sample_time;
        mkContents
          "bin/pyportal/en_US/adafruit-circuitpython-pyportal-en_US-20230301-7b4558b.uf2"
          1026 later_time;
        mkContents
          "bin/pyportal/en_US/adafruit-circuitpython-pyportal-en_US-8.0.0-beta.1.uf2"
          1025 later_time;
        mkContents
          "bin/pyportal/en_US/adafruit-circuitpython-pyportal-en_US-8.0.0-beta.1.bin"
          1000 later_time ]
      [].

Definition sample_images : result (list ImageInfo.t) :=
  FirmwareDownloader.list_images Urllib.path Urllib.join bucket_url
    sample_bucket "pyportal" "en_US".

(** ** The default language

    [DEFAULT_LANGUAGE = (os.getenv('LANG') or 'en_US').replace('-', '_').split('.', 1)[0]],
    as a function of the value of [LANG] in the environment. *)

(** [s.replace(old, new)] with one character each. *)
Fixpoint str_replace (old new : ascii) (s : string) : string :=
  match s with
  | EmptyString => EmptyString
  | String c r =>
      String (if Ascii.eqb c old then new else c) (str_replace old new r)
  end.

(** [l[0]] *)
Definition item_0 (l : list string) : result string :=
  match l with
  | x :: _ => OK x
  | [] => Raise IndexError
  end.

(** [x or y] on strings: [None] and the empty string are false. *)
Definition str_or (x : option string) (y : string) : string :=
  match x with
  | Some s => if String.eqb s "" then y else s
  | None => y
  end.

Definition DEFAULT_LANGUAGE (LANG : option string) : result string :=
  item_0 (Str.split_max "." (str_replace "-" "_" (str_or LANG "en_US")) 1).

(** The characters of a full release. *)
Definition release_char (c : ascii) : bool :=
  Str.is_digit c || Ascii.eqb c "." || Ascii.eqb c Str.newline.

(** The records of the sample listing, as listed and as sorted. *)
Definition sample_record (version ty : string) (size : Z) (time : datetime)
  : ImageInfo.t :=
  ImageInfo.mk
    ("adafruit-circuitpython-pyportal-en_US-" ++ version ++ ty)
    (bucket_url ++ "/bin/pyportal/en_US/adafruit-circuitpython-pyportal-en_US-"
       ++ version ++ ty)
    (Some size) (Some time) "pyportal" "en_US" version ty.

Definition sample_records : list ImageInfo.t :=
  [ sample_record "7.3.1" ".uf2" 1024 sample_time;
    sample_record "20230301-7b4558b" ".uf2" 1026 later_time;
    sample_record "8.0.0-beta.1" ".uf2" 1025 later_time;
    sample_record "8.0.0-beta.1" ".bin" 1000 later_time ].

Definition sample_results : list ImageInfo.t :=
  [ sample_record "8.0.0-beta.1" ".uf2" 1025 later_time;
    sample_record "20230301-7b4558b" ".uf2" 1026 later_time;
    sample_record "8.0.0-beta.1" ".bin" 1000 later_time;
    sample_record "7.3.1" ".uf2" 1024 sample_time ].

(** The criteria of the filter other than the gate: type and version. *)
Definition type_and_version_fit (o : options) (r : ImageInfo.t) : bool :=
  match opt_type o with
  | None => true
  | Some ty => Str.endswith (ImageInfo.type r) ty
  end
  &&
  match opt_version o with
  | None => true
  | Some v => String.eqb (ImageInfo.version r) v
  end.

(** * Properties *)

Example release_7_3_1 :
  ImageInfo.RELEASE_REGEX_match "7.3.1" = true /\
  ImageInfo.FULL_RELEASE_REGEX_match "7.3.1" = true /\
  ImageInfo.RELEASE_REGEX_match "8.0.0-beta.1" = true /\
  ImageInfo.FULL_RELEASE_REGEX_match "8.0.0-beta.1" = false.
Proof. repeat split; reflexivity. Qed.

Example filetype_groups :
  ImageInfo.FILETYPE_REGEX_match "adafruit-circuitpython-pyportal-en_US-8.0.0-beta.1.uf2"
  = Some ("adafruit-circuitpython-pyportal-en_US-8.0.0-beta.1", ".uf2") /\
  ImageInfo.FILETYPE_REGEX_match "a-b-c-d-7.3.1.bin.gz" = Some ("a-b-c-d-7.3.1", ".bin.gz") /\
  ImageInfo.FILETYPE_REGEX_match "not-a-valid-name" = None.
Proof. repeat split; reflexivity. Qed.

Example scanners_agree_with_re :
  map ImageInfo.RELEASE_REGEX_match ["7"; "1.2"; "1."; "12.3x"; ".1"; "1..2"; ""; "1.2."]
  = [false; true; false; true; false; false; false; true] /\
  map ImageInfo.FULL_RELEASE_REGEX_match
      ["7"; String "7" (String Str.newline ""); "1.2"; "1."; "12.3x"; "1..2"; ""; "1.2."]
  = [true; true; true; false; false; false; false; false] /\
  map ImageInfo.FILETYPE_REGEX_match
      [".uf2"; "x.1a"; "a.b.c"; "a..b"; "a.b-c.d"; "a.uf2."; ""]
  = [Some ("", ".uf2"); None; Some ("a", ".b.c"); Some ("a.", ".b");
     Some ("a.b-c", ".d"); None; None] /\
  ImageInfo.FILETYPE_REGEX_match (String "a" (String "." (String "b" (String Str.newline ""))))
  = Some ("a", ".b") /\
  ImageInfo.FILETYPE_REGEX_match (String "a" (String Str.newline ".b")) = None.
Proof. repeat split; reflexivity. Qed.

Example split_examples :
  Str.split_max "-" "a-b-c-d-e-f" 4 = ["a"; "b"; "c"; "d"; "e-f"] /\
  Str.split_max "-" "a-b-c" 4 = ["a"; "b"; "c"] /\
  Str.split "/" "/bin/x/" = [""; "bin"; "x"; ""] /\
  Str.split "/" "" = [""] /\
  Str.item_m2 (Str.split "/" "https://host/bin/x/") = OK "x".
Proof. repeat split; reflexivity. Qed.

(** ** Characters *)

Ltac by_cases_on_char c :=
  destruct c as [[] [] [] [] [] [] [] []]; try reflexivity; try discriminate.

Lemma digit_is_no_dot (c : ascii) :
  Str.is_digit c = true -> Ascii.eqb c "." = false.
Proof. by_cases_on_char c. Qed.

Lemma alnum_is_no_dot (c : ascii) :
  Str.is_alnum c = true -> Ascii.eqb c "." = false.
Proof. by_cases_on_char c. Qed.

Lemma alnum_is_no_dash (c : ascii) :
  Str.is_alnum c = true -> Ascii.eqb c "-" = false.
Proof. by_cases_on_char c. Qed.

Lemma alnum_is_no_newline (c : ascii) :
  Str.is_alnum c = true -> Ascii.eqb c Str.newline = false.
Proof. by_cases_on_char c. Qed.

Lemma letter_is_alnum (c : ascii) :
  Str.is_letter c = true -> Str.is_alnum c = true.
Proof. by_cases_on_char c. Qed.

Lemma eqb_true (a b : ascii) : Ascii.eqb a b = true -> a = b.
Proof. apply Ascii.eqb_eq. Qed.

(** ** The version classifier *)

Lemma contains_dot_cons (c : ascii) (r : string) :
  Str.contains "." (String c r) = Ascii.eqb c "." || Str.contains "." r.
Proof.
  cbn [Str.contains Str.startswith].
  rewrite Ascii.eqb_sym. destruct r; now rewrite andb_true_r.
Qed.

Lemma full_scan_needs_digit (s : string) :
  ImageInfo.full_scan ImageInfo.NeedDigit s = true ->
  ImageInfo.release_scan ImageInfo.DigitAfterDot s = true.
Proof.
  destruct s as [|c r]; cbn [ImageInfo.full_scan ImageInfo.release_scan];
    [discriminate|].
  intros H. apply andb_true_iff in H. tauto.
Qed.

Lemma full_run_with_dot (s : string) :
  ImageInfo.full_scan ImageInfo.InDigits s = true ->
  Str.contains "." s = true ->
  ImageInfo.release_scan ImageInfo.FirstRun s = true.
Proof.
  induction s as [|c r IH]; [discriminate|].
  rewrite contains_dot_cons.
  cbn [ImageInfo.full_scan ImageInfo.release_scan].
  destruct (Str.is_digit c) eqn:Hd.
  - rewrite (digit_is_no_dot _ Hd). exact IH.
  - destruct (Ascii.eqb c ".") eqn:Hdot; cbn [andb orb].
    + intros Hf _. now apply full_scan_needs_digit.
    + intros Hf Hc. apply andb_true_iff in Hf. destruct Hf as [_ Hr].
      apply String.eqb_eq in Hr. subst r. discriminate.
Qed.

(** C3 (as amended): a full release whose version contains a dot is a
    release. *)
Theorem full_release_with_dot_is_release (i : ImageInfo.t) :
  ImageInfo.is_full_release i = true ->
  Str.contains "." (ImageInfo.version i) = true ->
  ImageInfo.is_release i = true.
Proof.
  unfold ImageInfo.is_full_release, ImageInfo.is_release,
    ImageInfo.FULL_RELEASE_REGEX_match, ImageInfo.RELEASE_REGEX_match.
  destruct (ImageInfo.version i) as [|c r]; [discriminate|].
  rewrite contains_dot_cons.
  cbn [ImageInfo.full_scan ImageInfo.release_scan].
  destruct (Str.is_digit c) eqn:Hd; cbn [andb]; [|discriminate].
  rewrite (digit_is_no_dot _ Hd). apply full_run_with_dot.
Qed.

Lemma full_release_with_dot_is_release_witness :
  let i := ImageInfo.mk "" "" None None "" "" "7.3.1" "" in
  ImageInfo.is_full_release i = true /\
  Str.contains "." (ImageInfo.version i) = true /\
  ImageInfo.is_release i = true.
Proof.
  intro i. split; [reflexivity|]. split; [reflexivity|].
  apply (full_release_with_dot_is_release i); reflexivity.
Defined.

(** C3 (as stated) fails: the version [7] is a full release and is not a
    release, since a release needs at least one dot. *)
Lemma full_release_without_dot :
  let i := ImageInfo.mk "" "" None None "" "" "7" "" in
  ImageInfo.is_full_release i = true /\ ImageInfo.is_release i = false.
Proof. split; reflexivity. Qed.

(** ** Strings *)

Lemma append_assoc (a b c : string) : (a ++ b) ++ c = a ++ (b ++ c).
Proof. induction a as [|x a IH]; cbn; [reflexivity | now rewrite IH]. Qed.

Lemma append_empty_r (a : string) : a ++ "" = a.
Proof. induction a as [|x a IH]; cbn; [reflexivity | now rewrite IH]. Qed.

Lemma count_append (c : ascii) (a b : string) :
  Str.count c (a ++ b) = Str.count c a + Str.count c b.
Proof. induction a as [|x a IH]; cbn; [reflexivity | rewrite IH; lia]. Qed.

Lemma count_cons_zero (sep c : ascii) (s : string) :
  Str.count sep (String c s) = 0 ->
  Ascii.eqb c sep = false /\ Str.count sep s = 0.
Proof.
  cbn [Str.count]. destruct (Ascii.eqb c sep); [discriminate|].
  intro H. split; [reflexivity | exact H].
Qed.

Lemma all_free (p : ascii -> bool) (sep : ascii) (s : string) :
  p sep = false -> Shape.all p s = true -> Str.count sep s = 0.
Proof.
  intros Hp. induction s as [|c r IH]; cbn [Shape.all Str.count];
    [reflexivity|].
  intros H. apply andb_true_iff in H. destruct H as [Hc Hr].
  destruct (Ascii.eqb c sep) eqn:E.
  - apply eqb_true in E. subst c. congruence.
  - now apply IH.
Qed.

Lemma all_append (p : ascii -> bool) (a b : string) :
  Shape.all p (a ++ b) = Shape.all p a && Shape.all p b.
Proof.
  induction a as [|x a IH]; cbn; [reflexivity|].
  now rewrite IH, andb_assoc.
Qed.

(** *** [split] *)

Lemma split_not_empty (sep : ascii) (s : string) : Str.split sep s <> [].
Proof.
  destruct s as [|c r]; cbn; [discriminate|].
  destruct (Ascii.eqb c sep); [discriminate|].
  destruct (Str.split sep r); discriminate.
Qed.

Lemma split_free (sep : ascii) (s : string) :
  Str.count sep s = 0 -> Str.split sep s = [s].
Proof.
  induction s as [|c r IH]; [reflexivity|].
  intros H. apply count_cons_zero in H. destruct H as [E H].
  cbn [Str.split]. now rewrite E, (IH H).
Qed.

Lemma split_at_separator (sep : ascii) (a r : string) :
  Str.split sep (a ++ String sep r) = (Str.split sep a ++ Str.split sep r)%list.
Proof.
  induction a as [|c a IH].
  - cbn. now rewrite Ascii.eqb_refl.
  - cbn [String.append Str.split]. rewrite IH.
    destruct (Ascii.eqb c sep); [reflexivity|].
    destruct (Str.split sep a) eqn:E; [|reflexivity].
    now apply split_not_empty in E.
Qed.

Lemma item_m1_last (l : list string) (x : string) :
  Str.item_m1 (l ++ [x])%list = OK x.
Proof. unfold Str.item_m1. now rewrite rev_unit. Qed.

(** The basename of a path: what follows its last slash. *)
Lemma basename_after_last_slash (dir f : string) :
  Str.count "/" f = 0 ->
  Str.item_m1 (Str.split "/" (dir ++ String "/" f)) = OK f.
Proof.
  intros H. rewrite split_at_separator, (split_free _ _ H).
  apply item_m1_last.
Qed.

(** *** [split] with [maxsplit] *)

Lemma split_max_zero (sep : ascii) (s : string) : Str.split_max sep s 0 = [s].
Proof. destruct s; reflexivity. Qed.

Lemma split_max_not_empty (sep : ascii) (s : string) (n : nat) :
  Str.split_max sep s n <> [].
Proof.
  destruct s as [|c r]; destruct n; cbn; try discriminate.
  destruct (Ascii.eqb c sep); [discriminate|].
  destruct (Str.split_max sep r (S n)); discriminate.
Qed.

Lemma split_max_field (sep : ascii) (a r : string) (n : nat) :
  Str.count sep a = 0 ->
  Str.split_max sep (a ++ String sep r) (S n) = a :: Str.split_max sep r n.
Proof.
  induction a as [|c a IH]; intros H.
  - cbn. now rewrite Ascii.eqb_refl.
  - apply count_cons_zero in H. destruct H as [E H].
    cbn [String.append Str.split_max]. now rewrite E, (IH H).
Qed.

Lemma split_max_length (sep : ascii) (s : string) (n : nat) :
  length (Str.split_max sep s n) = S (Nat.min n (Str.count sep s)).
Proof.
  revert n. induction s as [|c r IH]; intros n.
  - destruct n; reflexivity.
  - destruct n as [|n]; [reflexivity|].
    cbn [Str.split_max Str.count].
    destruct (Ascii.eqb c sep).
    + cbn [length]. rewrite IH. reflexivity.
    + specialize (IH (S n)).
      destruct (Str.split_max sep r (S n)) eqn:E.
      * now apply split_max_not_empty in E.
      * cbn [length] in *. rewrite IH. reflexivity.
Qed.

(** A string with a separator splits at the first one. *)
Lemma first_separator (sep : ascii) (s : string) :
  1 <= Str.count sep s ->
  exists a r, s = a ++ String sep r /\ Str.count sep a = 0 /\
              Str.count sep s = S (Str.count sep r).
Proof.
  induction s as [|c s IH]; cbn [Str.count]; [lia|].
  destruct (Ascii.eqb c sep) eqn:E.
  - intros _. apply eqb_true in E. subst c.
    exists "", s. repeat split.
  - intros H. destruct (IH H) as (a & r & Hs & Ha & Hc).
    exists (String c a), r. cbn [String.append Str.count].
    rewrite E, Ha, Hc, <- Hs. repeat split.
Qed.

(** With four dashes or more, [split('-', 4)] gives five fields: four
    without a dash, and everything behind the fourth dash. *)
Lemma split_five (stem : string) :
  4 <= Str.count "-" stem ->
  exists f1 f2 f3 f4 rest,
    stem = f1 ++ "-" ++ f2 ++ "-" ++ f3 ++ "-" ++ f4 ++ "-" ++ rest /\
    Str.count "-" f1 = 0 /\ Str.count "-" f2 = 0 /\
    Str.count "-" f3 = 0 /\ Str.count "-" f4 = 0 /\
    Str.split_max "-" stem 4 = [f1; f2; f3; f4; rest].
Proof.
  intros H.
  destruct (first_separator "-" stem) as (f1 & r1 & E1 & F1 & C1); [lia|].
  destruct (first_separator "-" r1) as (f2 & r2 & E2 & F2 & C2); [lia|].
  destruct (first_separator "-" r2) as (f3 & r3 & E3 & F3 & C3); [lia|].
  destruct (first_separator "-" r3) as (f4 & r4 & E4 & F4 & C4); [lia|].
  exists f1, f2, f3, f4, r4. subst stem r1 r2 r3.
  repeat split; try assumption.
  rewrite !split_max_field by assumption.
  now rewrite split_max_zero.
Qed.

(** ** The file-type pattern *)

Lemma segment_inv (s : string) :
  Shape.segment s = true ->
  exists c body, s = String "." (String c body) /\
                 Str.is_letter c = true /\ Shape.all Str.is_alnum body = true.
Proof.
  destruct s as [|d [|c body]]; try discriminate;
    destruct d as [[] [] [] [] [] [] [] []]; try discriminate.
  unfold Shape.segment. intros H. apply andb_true_iff in H.
  now exists c, body.
Qed.

Lemma all_weaken (p q : ascii -> bool) (s : string) :
  (forall c, p c = true -> q c = true) ->
  Shape.all p s = true -> Shape.all q s = true.
Proof.
  intros Hpq. induction s as [|c r IH]; cbn [Shape.all]; [trivial|].
  intros H. apply andb_true_iff in H. destruct H as [Hc Hr].
  now rewrite (Hpq _ Hc), IH.
Qed.

Lemma segment_chars (s : string) :
  Shape.segment s = true -> Shape.all suffix_char s = true.
Proof.
  intros H. apply segment_inv in H. destruct H as (c & body & -> & Hc & Hb).
  cbn [Shape.all]. unfold suffix_char at 1 2.
  rewrite (letter_is_alnum _ Hc), orb_true_r. cbn [andb Ascii.eqb orb].
  apply (all_weaken Str.is_alnum); [|exact Hb].
  intros x Hx. unfold suffix_char. now rewrite Hx, orb_true_r.
Qed.

Lemma type_suffix_chars (ty : string) :
  Shape.type_suffix ty -> Shape.all suffix_char ty = true.
Proof.
  induction 1 as [s Hs | s rest Hs _ IH].
  - now apply segment_chars.
  - now rewrite all_append, (segment_chars _ Hs), IH.
Qed.

Lemma type_suffix_free (sep : ascii) (ty : string) :
  suffix_char sep = false -> Shape.type_suffix ty -> Str.count sep ty = 0.
Proof. intros Hsep H. eapply all_free; [exact Hsep | now apply type_suffix_chars]. Qed.

Lemma segment_snoc (pre : string) (c : ascii) :
  Shape.segment pre = true -> Str.is_alnum c = true ->
  Shape.segment (pre ++ String c "") = true.
Proof.
  intros H Hc. apply segment_inv in H. destruct H as (l & body & -> & Hl & Hb).
  cbn [String.append]. unfold Shape.segment.
  rewrite Hl, all_append, Hb. cbn. now rewrite Hc.
Qed.

Lemma option_map_some {A B : Type} (f : A -> B) (o : option A) (b : B) :
  option_map f o = Some b -> exists a, o = Some a /\ b = f a.
Proof. destruct o as [a|]; cbn; [|discriminate]. intros [= <-]. now exists a. Qed.

Lemma suffix_scan_sound (s : string) :
  forall st t,
    ImageInfo.suffix_scan st s = Some t ->
    Str.count Str.newline s = 0 ->
    t = s /\ scanned st s.
Proof.
  induction s as [|c r IH]; intros st t.
  - destruct st; cbn; try discriminate.
    intros [= <-] _. split; [reflexivity|].
    intros pre Hpre. rewrite append_empty_r. now constructor.
  - intros H Hnl. apply count_cons_zero in Hnl. destruct Hnl as [Hc Hnl].
    destruct st; cbn [ImageInfo.suffix_scan] in H.
    + destruct (Ascii.eqb c ".") eqn:E; [|discriminate].
      apply option_map_some in H. destruct H as (t' & H & ->).
      destruct (IH _ _ H Hnl) as [-> Hs]. split; [reflexivity|].
      apply eqb_true in E. subst c. exact Hs.
    + destruct (Str.is_letter c) eqn:E; [|discriminate].
      apply option_map_some in H. destruct H as (t' & H & ->).
      destruct (IH _ _ H Hnl) as [-> Hs]. split; [reflexivity|].
      cbn [scanned] in *.
      apply (Hs (String "." (String c ""))).
      unfold Shape.segment. now rewrite E.
    + destruct (Str.is_alnum c) eqn:E.
      * apply option_map_some in H. destruct H as (t' & H & ->).
        destruct (IH _ _ H Hnl) as [-> Hs]. split; [reflexivity|].
        intros pre Hpre.
        change (String c r) with (String c "" ++ r).
        rewrite <- append_assoc. apply Hs. now apply segment_snoc.
      * destruct (Ascii.eqb c ".") eqn:Ed.
        -- apply option_map_some in H. destruct H as (t' & H & ->).
           destruct (IH _ _ H Hnl) as [-> Hs]. split; [reflexivity|].
           intros pre Hpre. apply eqb_true in Ed. subst c.
           now constructor 2.
        -- rewrite Hc in H. discriminate.
Qed.

Lemma scan_body (body : string) :
  Shape.all Str.is_alnum body = true ->
  forall rest t,
    ImageInfo.suffix_scan ImageInfo.InSegment rest = Some t ->
    ImageInfo.suffix_scan ImageInfo.InSegment (body ++ rest) = Some (body ++ t).
Proof.
  induction body as [|c body IH]; intros Hb rest t H; [exact H|].
  cbn [Shape.all] in Hb. apply andb_true_iff in Hb. destruct Hb as [Hc Hb].
  cbn [String.append ImageInfo.suffix_scan]. now rewrite Hc, (IH Hb _ _ H).
Qed.

Lemma scan_dot_in_segment (r t : string) :
  ImageInfo.suffix_scan ImageInfo.NeedDot r = Some t ->
  ImageInfo.suffix_scan ImageInfo.InSegment r = Some t.
Proof.
  destruct r as [|c r]; cbn [ImageInfo.suffix_scan]; [discriminate|].
  destruct (Ascii.eqb c ".") eqn:E; [|discriminate].
  apply eqb_true in E. subst c. cbn. trivial.
Qed.

Lemma scan_segment (s : string) :
  Shape.segment s = true ->
  forall rest t,
    ImageInfo.suffix_scan ImageInfo.InSegment rest = Some t ->
    ImageInfo.suffix_scan ImageInfo.NeedDot (s ++ rest) = Some (s ++ t).
Proof.
  intros H rest t Hr.
  apply segment_inv in H. destruct H as (c & body & -> & Hc & Hb).
  cbn [String.append ImageInfo.suffix_scan].
  rewrite Ascii.eqb_refl, Hc, (scan_body _ Hb _ _ Hr). reflexivity.
Qed.

(** A type suffix is matched whole by the second group. *)
Lemma suffix_scan_complete (ty : string) :
  Shape.type_suffix ty ->
  ImageInfo.suffix_scan ImageInfo.NeedDot ty = Some ty.
Proof.
  induction 1 as [s Hs | s rest Hs _ IH].
  - rewrite <- (append_empty_r s) at 1 2.
    rewrite (scan_segment _ Hs "" ""); [|reflexivity].
    now rewrite append_empty_r.
  - apply (scan_segment _ Hs). now apply scan_dot_in_segment.
Qed.

(** A dash ends every attempt to match the second group. *)
Lemma suffix_scan_no_dash (s : string) :
  forall st, 1 <= Str.count "-" s -> ImageInfo.suffix_scan st s = None.
Proof.
  induction s as [|c r IH]; intros st; cbn [Str.count]; [lia|].
  destruct (Ascii.eqb c "-") eqn:E.
  - apply eqb_true in E. subst c. intros _. destruct st; reflexivity.
  - intros H. cbn [plus] in H.
    destruct st; cbn [ImageInfo.suffix_scan].
    + destruct (Ascii.eqb c "."); [|reflexivity]. now rewrite IH.
    + destruct (Str.is_letter c); [|reflexivity]. now rewrite IH.
    + destruct (Str.is_alnum c); [now rewrite IH|].
      destruct (Ascii.eqb c "."); [now rewrite IH|].
      destruct (Ascii.eqb c Str.newline); [|reflexivity].
      destruct r; [cbn in H; lia | reflexivity].
Qed.

Lemma filetype_match_sound (s : string) :
  forall stem ty,
    ImageInfo.FILETYPE_REGEX_match s = Some (stem, ty) ->
    Str.count Str.newline s = 0 ->
    s = stem ++ ty /\ Shape.type_suffix ty.
Proof.
  induction s as [|c r IH]; intros stem ty.
  - cbn. discriminate.
  - cbn [ImageInfo.FILETYPE_REGEX_match].
    destruct (ImageInfo.suffix_scan ImageInfo.NeedDot (String c r)) as [t|] eqn:Es.
    + intros [= <- <-] Hnl.
      destruct (suffix_scan_sound _ _ _ Es Hnl) as [-> Hs].
      split; [reflexivity | exact Hs].
    + destruct (Ascii.eqb c Str.newline); [discriminate|].
      intros H Hnl. apply option_map_some in H.
      destruct H as ([stem' ty'] & H & [= -> ->]).
      apply count_cons_zero in Hnl. destruct Hnl as [_ Hnl].
      destruct (IH _ _ H Hnl) as [-> Hty].
      split; [reflexivity | exact Hty].
Qed.

Lemma filetype_match_unfold (s : string) :
  ImageInfo.FILETYPE_REGEX_match s =
  match ImageInfo.suffix_scan ImageInfo.NeedDot s with
  | Some ty => Some ("", ty)
  | None =>
      match s with
      | EmptyString => None
      | String c r =>
          if Ascii.eqb c Str.newline then None
          else option_map (fun g => (String c (fst g), snd g))
                          (ImageInfo.FILETYPE_REGEX_match r)
      end
  end.
Proof. destruct s; reflexivity. Qed.

(** The lazy first group runs over a dash-separated field. *)
Lemma lazy_over_dash (a r : string) :
  Str.count Str.newline a = 0 ->
  ImageInfo.FILETYPE_REGEX_match (a ++ String "-" r) =
  option_map (fun g => (a ++ String "-" (fst g), snd g))
             (ImageInfo.FILETYPE_REGEX_match r).
Proof.
  induction a as [|c a IH]; intros Hnl.
  - cbn [String.append]. rewrite filetype_match_unfold.
    cbn. now destruct (ImageInfo.FILETYPE_REGEX_match r) as [[]|].
  - apply count_cons_zero in Hnl. destruct Hnl as [Hc Hnl].
    cbn [String.append]. rewrite filetype_match_unfold.
    rewrite suffix_scan_no_dash.
    + rewrite Hc, (IH Hnl).
      now destruct (ImageInfo.FILETYPE_REGEX_match r) as [[]|].
    + change (String c (a ++ String "-" r)) with (String c a ++ String "-" r).
      rewrite count_append. cbn. lia.
Qed.

Lemma ends_with_segment_append (x y : string) :
  Shape.ends_with_segment y = true -> Shape.ends_with_segment (x ++ y) = true.
Proof.
  intros H. induction x as [|c x IH]; [exact H|].
  cbn [String.append Shape.ends_with_segment]. now rewrite IH, orb_true_r.
Qed.

Lemma segment_ends (s : string) :
  Shape.segment s = true -> Shape.ends_with_segment s = true.
Proof. intros H. destruct s; cbn [Shape.ends_with_segment]; now rewrite H. Qed.

(** A scan that runs through [u] into a type suffix has read whole
    segments, so [u] ends with one. *)
Lemma scan_through (ty : string) :
  Shape.type_suffix ty ->
  forall u st pre t,
    read_so_far st pre ->
    (st = ImageInfo.NeedDot -> u <> "") ->
    ImageInfo.suffix_scan st (u ++ ty) = Some t ->
    Shape.ends_with_segment (pre ++ u) = true.
Proof.
  intros Hty.
  assert (Hdot : exists c rest, ty = String "." (String c rest)).
  { destruct Hty as [s Hs | s rest Hs _];
      apply segment_inv in Hs; destruct Hs as (c & body & -> & _);
      cbn [String.append]; eauto. }
  destruct Hdot as (c0 & rest0 & ->).
  induction u as [|c u IH]; intros st pre t Hpre Hne H.
  - destruct st.
    + now elim Hne.
    + discriminate.
    + rewrite append_empty_r. now apply segment_ends.
  - cbn [String.append] in H. destruct st; cbn [ImageInfo.suffix_scan read_so_far] in *.
    + subst pre. destruct (Ascii.eqb c ".") eqn:E; [|discriminate].
      apply option_map_some in H. destruct H as (t' & H & _).
      apply eqb_true in E. subst c.
      apply (IH ImageInfo.NeedLetter "." t'); [reflexivity | discriminate | exact H].
    + subst pre. destruct (Str.is_letter c) eqn:E; [|discriminate].
      apply option_map_some in H. destruct H as (t' & H & _).
      apply (IH ImageInfo.InSegment (String "." (String c "")) t');
        [|discriminate | exact H].
      cbn. unfold Shape.segment. now rewrite E.
    + destruct (Str.is_alnum c) eqn:E.
      * apply option_map_some in H. destruct H as (t' & H & _).
        change (String c u) with (String c "" ++ u). rewrite <- append_assoc.
        apply (IH ImageInfo.InSegment _ t'); [|discriminate | exact H].
        now apply segment_snoc.
      * destruct (Ascii.eqb c ".") eqn:Ed.
        -- apply option_map_some in H. destruct H as (t' & H & _).
           apply eqb_true in Ed. subst c.
           apply ends_with_segment_append.
           apply (IH ImageInfo.NeedLetter "." t'); [reflexivity | discriminate | exact H].
        -- destruct (Ascii.eqb c Str.newline); [|discriminate].
           destruct u; discriminate.
Qed.

(** The lazy first group takes a whole version that does not end with
    an extension segment. *)
Lemma lazy_over_version (ty : string) :
  Shape.type_suffix ty ->
  forall v,
    Str.count Str.newline v = 0 ->
    Shape.ends_with_segment v = false ->
    ImageInfo.FILETYPE_REGEX_match (v ++ ty) = Some (v, ty).
Proof.
  intros Hty. induction v as [|c v IH]; intros Hnl Hend.
  - cbn [String.append]. rewrite filetype_match_unfold.
    now rewrite (suffix_scan_complete _ Hty).
  - apply count_cons_zero in Hnl. destruct Hnl as [Hc Hnl].
    assert (Hv : Shape.ends_with_segment v = false).
    { cbn [Shape.ends_with_segment] in Hend. apply orb_false_iff in Hend. tauto. }
    rewrite filetype_match_unfold.
    destruct (ImageInfo.suffix_scan ImageInfo.NeedDot (String c v ++ ty)) as [t|] eqn:Es.
    + apply (scan_through ty Hty (String c v) ImageInfo.NeedDot "" t) in Es;
        [|reflexivity | discriminate].
      cbn [String.append] in Es. congruence.
    + cbn [String.append]. now rewrite Hc, (IH Hnl Hv).
Qed.

(** ** The parser *)

Section Parser.

Variable urlparse_path : string -> string.

Lemma from_url_no_match (url : string) (size : option Z)
    (mdate : option datetime) (filename : string) :
  Str.item_m1 (Str.split "/" (urlparse_path url)) = OK filename ->
  ImageInfo.FILETYPE_REGEX_match filename = None ->
  ImageInfo.from_url urlparse_path url size mdate = Raise AttributeError.
Proof.
  intros Hf Hm. unfold ImageInfo.from_url. rewrite Hf. cbn [bind].
  now rewrite Hm.
Qed.

Lemma from_url_few_fields (url : string) (size : option Z)
    (mdate : option datetime) (filename stem ty : string) :
  Str.item_m1 (Str.split "/" (urlparse_path url)) = OK filename ->
  ImageInfo.FILETYPE_REGEX_match filename = Some (stem, ty) ->
  Str.count "-" stem < 4 ->
  ImageInfo.from_url urlparse_path url size mdate = Raise ValueError.
Proof.
  intros Hf Hm Hc. unfold ImageInfo.from_url. rewrite Hf. cbn [bind].
  rewrite Hm.
  pose proof (split_max_length "-" stem 4) as Hl.
  destruct (Str.split_max "-" stem 4) as [|a [|b [|c [|d [|e [|f l]]]]]];
    try reflexivity; cbn [length] in Hl; lia.
Qed.

End Parser.

(** C8: when the pattern matches the basename and the stem has four
    dashes or more, [from_url] succeeds; the first four dashes delimit
    the fields and the version is everything behind the fourth one,
    further dashes included. *)
Theorem version_takes_the_rest (urlparse_path : string -> string)
    (url : string) (size : option Z) (mdate : option datetime)
    (filename stem ty : string) :
  Str.item_m1 (Str.split "/" (urlparse_path url)) = OK filename ->
  ImageInfo.FILETYPE_REGEX_match filename = Some (stem, ty) ->
  4 <= Str.count "-" stem ->
  exists f1 f2 f3 f4 rest,
    stem = f1 ++ "-" ++ f2 ++ "-" ++ f3 ++ "-" ++ f4 ++ "-" ++ rest /\
    Str.count "-" f1 = 0 /\ Str.count "-" f2 = 0 /\
    Str.count "-" f3 = 0 /\ Str.count "-" f4 = 0 /\
    ImageInfo.from_url urlparse_path url size mdate
    = OK (ImageInfo.mk filename url size mdate f3 f4 rest ty).
Proof.
  intros Hf Hm Hc.
  destruct (split_five stem Hc) as (f1 & f2 & f3 & f4 & rest & E & H1 & H2 & H3 & H4 & Hs).
  exists f1, f2, f3, f4, rest. repeat split; try assumption.
  unfold ImageInfo.from_url. rewrite Hf. cbn [bind]. now rewrite Hm, Hs.
Qed.

Lemma version_takes_the_rest_witness :
  let url := bucket_url ++
    "/bin/pyportal/en_US/adafruit-circuitpython-pyportal-en_US-8.0.0-beta.1.uf2" in
  let filename := "adafruit-circuitpython-pyportal-en_US-8.0.0-beta.1.uf2" in
  exists f1 f2 f3 f4 rest,
    "adafruit-circuitpython-pyportal-en_US-8.0.0-beta.1"
    = f1 ++ "-" ++ f2 ++ "-" ++ f3 ++ "-" ++ f4 ++ "-" ++ rest /\
    Str.count "-" f1 = 0 /\ Str.count "-" f2 = 0 /\
    Str.count "-" f3 = 0 /\ Str.count "-" f4 = 0 /\
    ImageInfo.from_url Urllib.path url None None
    = OK (ImageInfo.mk filename url None None f3 f4 rest ".uf2").
Proof.
  intros url filename.
  apply (version_takes_the_rest Urllib.path url None None filename
           "adafruit-circuitpython-pyportal-en_US-8.0.0-beta.1" ".uf2").
  - reflexivity.
  - reflexivity.
  - cbn. lia.
Defined.

Example version_with_dashes :
  let url := bucket_url ++
    "/bin/pyportal/en_US/adafruit-circuitpython-pyportal-en_US-8.0.0-beta.1.uf2" in
  ImageInfo.from_url Urllib.path url None None
  = OK (ImageInfo.mk "adafruit-circuitpython-pyportal-en_US-8.0.0-beta.1.uf2"
          url None None "pyportal" "en_US" "8.0.0-beta.1" ".uf2").
Proof. reflexivity. Qed.




(** *** The round trip *)

Lemma plain_free (s : string) :
  Shape.all Shape.plain s = true ->
  Str.count "-" s = 0 /\ Str.count "/" s = 0 /\ Str.count Str.newline s = 0.
Proof. intros H. repeat split; eapply all_free; try exact H; reflexivity. Qed.

Lemma versionish_free (s : string) :
  Shape.all Shape.versionish s = true ->
  Str.count "/" s = 0 /\ Str.count Str.newline s = 0.
Proof. intros H. split; eapply all_free; try exact H; reflexivity. Qed.

Lemma stem_split (p d board language version : string) :
  Shape.all Shape.plain p = true -> Shape.all Shape.plain d = true ->
  Shape.all Shape.plain board = true -> Shape.all Shape.plain language = true ->
  Str.split_max "-" (Shape.stem_of p d board language version) 4
  = [p; d; board; language; version].
Proof.
  intros Hp Hd Hb Hl. unfold Shape.stem_of. cbn [String.append].
  rewrite !split_max_field by now apply plain_free.
  now rewrite split_max_zero.
Qed.

Lemma stem_match (p d board language version ty : string) :
  Shape.well_formed p d board language version ty ->
  Shape.ends_with_segment version = false ->
  ImageInfo.FILETYPE_REGEX_match (Shape.stem_of p d board language version ++ ty)
  = Some (Shape.stem_of p d board language version, ty).
Proof.
  intros (Hp & Hd & Hb & Hl & Hv & Hty) Hend.
  unfold Shape.stem_of. cbn [String.append].
  repeat (rewrite append_assoc; cbn [String.append]).
  rewrite !lazy_over_dash by now apply plain_free.
  rewrite (lazy_over_version ty Hty version); [reflexivity | | exact Hend].
  now apply versionish_free.
Qed.

Lemma key_path_behind (pre p d board language version ty : string) :
  pre ++ Shape.key_of p d board language version ty
  = (pre ++ "bin/" ++ board ++ "/" ++ language) ++
    String "/" (Shape.stem_of p d board language version ++ ty).
Proof.
  unfold Shape.key_of.
  repeat (rewrite append_assoc; cbn [String.append]).
  reflexivity.
Qed.

(** C5 (as amended): for a well-formed key whose version does not end
    with an extension segment (a dot, a letter, then letters and digits),
    and for a URL whose path, as [urlparse] returns it, ends with the
    key (the key itself, or the key behind a slash),
    [from_url] gives back the board, the language, the version and the
    type the key was built from. *)
Theorem parse_round_trip (urlparse_path : string -> string)
    (url : string) (size : option Z) (mdate : option datetime)
    (pre p d board language version ty : string) :
  Shape.well_formed p d board language version ty ->
  Shape.ends_with_segment version = false ->
  urlparse_path url = pre ++ Shape.key_of p d board language version ty ->
  exists r,
    ImageInfo.from_url urlparse_path url size mdate = OK r /\
    ImageInfo.board r = board /\ ImageInfo.language r = language /\
    ImageInfo.version r = version /\ ImageInfo.type r = ty.
Proof.
  intros Hwf Hend Hpath.
  pose proof Hwf as (Hp & Hd & Hb & Hl & Hv & Hty).
  set (stem := Shape.stem_of p d board language version).
  exists (ImageInfo.mk (stem ++ ty) url size mdate board language version ty).
  split; [|repeat split].
  unfold ImageInfo.from_url.
  rewrite Hpath, key_path_behind, basename_after_last_slash.
  - cbn [bind]. fold stem.
    unfold stem at 1. rewrite (stem_match _ _ _ _ _ _ Hwf Hend).
    fold stem. unfold stem at 1. now rewrite stem_split.
  - unfold Shape.stem_of. rewrite !count_append.
    destruct (plain_free _ Hp) as (_ & -> & _).
    destruct (plain_free _ Hd) as (_ & -> & _).
    destruct (plain_free _ Hb) as (_ & -> & _).
    destruct (plain_free _ Hl) as (_ & -> & _).
    destruct (versionish_free _ Hv) as (-> & _).
    now rewrite (type_suffix_free "/" ty eq_refl Hty).
Qed.

Lemma parse_round_trip_witness :
  let key :=
    "bin/pyportal/en_US/adafruit-circuitpython-pyportal-en_US-8.0.0-beta.1.uf2" in
  (exists r,
      ImageInfo.from_url Urllib.path (bucket_url ++ "/" ++ key) None None = OK r /\
      ImageInfo.board r = "pyportal" /\ ImageInfo.language r = "en_US" /\
      ImageInfo.version r = "8.0.0-beta.1" /\ ImageInfo.type r = ".uf2") /\
  (exists r,
      ImageInfo.from_url Urllib.path key None None = OK r /\
      ImageInfo.board r = "pyportal" /\ ImageInfo.language r = "en_US" /\
      ImageInfo.version r = "8.0.0-beta.1" /\ ImageInfo.type r = ".uf2").
Proof.
  intros key. split.
  - apply (parse_round_trip Urllib.path (bucket_url ++ "/" ++ key) None None "/"
             "adafruit" "circuitpython" "pyportal" "en_US" "8.0.0-beta.1" ".uf2").
    + repeat split; try reflexivity. apply Shape.suffix_one. reflexivity.
    + reflexivity.
    + reflexivity.
  - apply (parse_round_trip Urllib.path key None None ""
             "adafruit" "circuitpython" "pyportal" "en_US" "8.0.0-beta.1" ".uf2").
    + repeat split; try reflexivity. apply Shape.suffix_one. reflexivity.
    + reflexivity.
    + reflexivity.
Defined.

(** Where [urlparse] cuts the key, the record is not read back: a version
    [8.0.0#beta] leaves a path that ends with [8.0.0], without a type. *)
Example name_cut_at_fragment (urlparse_path : string -> string)
    (url : string) (size : option Z) (mdate : option datetime) :
  urlparse_path url
  = "/bin/pyportal/en_US/adafruit-circuitpython-pyportal-en_US-8.0.0" ->
  ImageInfo.from_url urlparse_path url size mdate = Raise AttributeError.
Proof.
  intros Hp.
  apply (from_url_no_match urlparse_path url size mdate
           "adafruit-circuitpython-pyportal-en_US-8.0.0").
  - now rewrite Hp.
  - reflexivity.
Qed.

(** C5 (as stated) fails: in a key built from the version [1.0.a] and the
    type [.uf2] the pattern reads [.a] as part of the type. *)
Lemma round_trip_loses_segment :
  let url := bucket_url ++ "/" ++
    Shape.key_of "adafruit" "circuitpython" "pyportal" "en_US" "1.0.a" ".uf2" in
  Shape.well_formed "adafruit" "circuitpython" "pyportal" "en_US" "1.0.a" ".uf2" /\
  Urllib.path url
  = "/" ++ Shape.key_of "adafruit" "circuitpython" "pyportal" "en_US" "1.0.a" ".uf2" /\
  exists r,
    ImageInfo.from_url Urllib.path url None None = OK r /\
    ImageInfo.version r = "1.0" /\ ImageInfo.version r <> "1.0.a" /\
    ImageInfo.type r = ".a.uf2" /\ ImageInfo.type r <> ".uf2".
Proof.
  intros url. split; [|split].
  - repeat split; try reflexivity. apply Shape.suffix_one. reflexivity.
  - reflexivity.
  - exists (ImageInfo.mk "adafruit-circuitpython-pyportal-en_US-1.0.a.uf2" url
              None None "pyportal" "en_US" "1.0" ".a.uf2").
    split; [vm_compute; reflexivity|].
    cbn [ImageInfo.version ImageInfo.type]. repeat split; discriminate.
Qed.

(** ** Comparison laws

    On the key types of the program [<] is a strict total order and [==]
    is equality. *)

#[export] Instance PyOrdLaws_Z : PyOrdLaws Z.
Proof.
  split; cbn.
  - apply Z.eqb_eq.
  - apply Z.ltb_irrefl.
  - intros a b c. rewrite !Z.ltb_lt. lia.
  - intros a b. rewrite !Z.ltb_ge. lia.
Qed.

Lemma ascii_compare_refl (a : ascii) : Ascii.compare a a = Eq.
Proof. unfold Ascii.compare. apply N.compare_refl. Qed.

Lemma ascii_compare_lt_trans (a b c : ascii) :
  Ascii.compare a b = Lt -> Ascii.compare b c = Lt -> Ascii.compare a c = Lt.
Proof. unfold Ascii.compare. rewrite !N.compare_lt_iff. lia. Qed.

Lemma string_compare_refl (s : string) : String.compare s s = Eq.
Proof. induction s as [|c s IH]; cbn; [reflexivity|]. now rewrite ascii_compare_refl. Qed.

Lemma string_compare_lt_trans (a : string) :
  forall b c,
    String.compare a b = Lt -> String.compare b c = Lt -> String.compare a c = Lt.
Proof.
  induction a as [|x a IH]; intros [|y b] [|z c]; cbn; try discriminate; trivial.
  destruct (Ascii.compare x y) eqn:Exy; try discriminate;
    destruct (Ascii.compare y z) eqn:Eyz; try discriminate.
  - apply Ascii.compare_eq_iff in Exy, Eyz. subst y z.
    rewrite ascii_compare_refl. apply IH.
  - apply Ascii.compare_eq_iff in Exy. subst y. now rewrite Eyz.
  - apply Ascii.compare_eq_iff in Eyz. subst z. now rewrite Exy.
  - now rewrite (ascii_compare_lt_trans _ _ _ Exy Eyz).
Qed.

#[export] Instance PyOrdLaws_str : PyOrdLaws string.
Proof.
  split; cbn.
  - apply String.eqb_eq.
  - intros a. unfold String.ltb. now rewrite string_compare_refl.
  - intros a b c. unfold String.ltb.
    destruct (String.compare a b) eqn:Eab; try discriminate.
    destruct (String.compare b c) eqn:Ebc; try discriminate.
    now rewrite (string_compare_lt_trans _ _ _ Eab Ebc).
  - intros a b. unfold String.ltb.
    rewrite (String.compare_antisym b a).
    destruct (String.compare a b) eqn:Eab; cbn; try discriminate.
    intros _ _. now apply String.compare_eq_iff.
Qed.

#[export] Instance PyOrdLaws_tuple {A B : Type}
    {OA : PyOrd A} {LA : PyOrdLaws A} {OB : PyOrd B} {LB : PyOrdLaws B}
  : PyOrdLaws (A * B).
Proof.
  split.
  - intros [a1 b1] [a2 b2]. cbn. rewrite andb_true_iff, !eq_spec.
    split; [intros [-> ->]; reflexivity | intros [= -> ->]; split; reflexivity].
  - intros [a b]. cbn.
    destruct (py_eq a a) eqn:E; [apply lt_irrefl|].
    assert (py_eq a a = true) by now apply eq_spec. congruence.
  - intros [a1 b1] [a2 b2] [a3 b3]. cbn.
    destruct (py_eq a1 a2) eqn:E12; destruct (py_eq a2 a3) eqn:E23;
      try (apply eq_spec in E12; subst a2); try (apply eq_spec in E23; subst a3).
    + assert (E : py_eq a1 a1 = true) by now apply eq_spec.
      rewrite E. apply lt_trans.
    + rewrite E23. trivial.
    + rewrite E12. trivial.
    + intros L12 L23. pose proof (lt_trans _ _ _ L12 L23) as L13.
      destruct (py_eq a1 a3) eqn:E13; [|exact L13].
      apply eq_spec in E13. subst a3.
      rewrite lt_irrefl in L13. discriminate.
  - intros [a1 b1] [a2 b2]. cbn.
    destruct (py_eq a1 a2) eqn:E12.
    + apply eq_spec in E12. subst a2.
      assert (E : py_eq a1 a1 = true) by now apply eq_spec.
      rewrite E. intros L12 L21. now rewrite (lt_total _ _ L12 L21).
    + destruct (py_eq a2 a1) eqn:E21.
      * apply eq_spec in E21. subst a2.
        assert (E : py_eq a1 a1 = true) by now apply eq_spec. congruence.
      * intros L12 L21. pose proof (lt_total _ _ L12 L21). subst a2.
        assert (E : py_eq a1 a1 = true) by now apply eq_spec. congruence.
Qed.

Lemma date_tuple_inj (a b : date) : date_tuple a = date_tuple b -> a = b.
Proof. destruct a, b. unfold date_tuple. cbn. now intros [= -> -> ->]. Qed.

#[export] Instance PyOrdLaws_date : PyOrdLaws date.
Proof.
  split.
  - intros a b. change (py_eq a b) with (py_eq (date_tuple a) (date_tuple b)).
    rewrite eq_spec. split; [apply date_tuple_inj | now intros ->].
  - intros a. change (py_lt a a) with (py_lt (date_tuple a) (date_tuple a)).
    apply lt_irrefl.
  - intros a b c.
    change (py_lt a b) with (py_lt (date_tuple a) (date_tuple b)).
    change (py_lt b c) with (py_lt (date_tuple b) (date_tuple c)).
    change (py_lt a c) with (py_lt (date_tuple a) (date_tuple c)).
    apply lt_trans.
  - intros a b.
    change (py_lt a b) with (py_lt (date_tuple a) (date_tuple b)).
    change (py_lt b a) with (py_lt (date_tuple b) (date_tuple a)).
    intros Lab Lba. apply date_tuple_inj. now apply lt_total.
Qed.

Section OrderFacts.

Context {K : Type} `{PyOrdLaws K}.

Lemma lt_asym (a b : K) : py_lt a b = true -> py_lt b a = false.
Proof.
  intros Hab. destruct (py_lt b a) eqn:Hba; [|reflexivity].
  pose proof (lt_trans _ _ _ Hab Hba) as Haa.
  rewrite lt_irrefl in Haa. discriminate.
Qed.

(** [a <= b], as [not (b < a)]. *)
Lemma le_trans (a b c : K) :
  py_lt b a = false -> py_lt c b = false -> py_lt c a = false.
Proof.
  intros Hba Hcb. destruct (py_lt c a) eqn:Hca; [|reflexivity].
  destruct (py_lt a b) eqn:Hab.
  - rewrite (lt_trans _ _ _ Hca Hab) in Hcb. discriminate.
  - pose proof (lt_total _ _ Hab Hba). subst b. congruence.
Qed.

Lemma lt_le_trans (a b c : K) :
  py_lt a b = true -> py_lt c b = false -> py_lt a c = true.
Proof.
  intros Hab Hcb. destruct (py_lt a c) eqn:Hac; [reflexivity|].
  destruct (py_lt b c) eqn:Hbc.
  - rewrite (lt_trans _ _ _ Hab Hbc) in Hac. discriminate.
  - pose proof (lt_total _ _ Hbc Hcb). subst c. congruence.
Qed.

Lemma eq_refl_true (a : K) : py_eq a a = true.
Proof. now apply eq_spec. Qed.

End OrderFacts.

(** ** Stable sorting *)

Lemma pairs_impl {A : Type} (R R' : A -> A -> Prop) (l : list A) :
  (forall a b, R a b -> R' a b) -> ForallOrdPairs R l -> ForallOrdPairs R' l.
Proof.
  intros HR. induction 1 as [|a l Ha _ IH]; constructor; [|exact IH].
  eapply Forall_impl; [|exact Ha]. intros b. apply HR.
Qed.

Lemma pairs_app {A : Type} (R : A -> A -> Prop) (l1 l2 : list A) :
  ForallOrdPairs R l1 -> ForallOrdPairs R l2 ->
  (forall a b, In a l1 -> In b l2 -> R a b) ->
  ForallOrdPairs R (l1 ++ l2)%list.
Proof.
  intros H1 H2. induction H1 as [|a l Ha _ IH]; intros H12; [exact H2|].
  cbn. constructor.
  - apply Forall_app. split; [exact Ha|].
    apply Forall_forall. intros b Hb. apply H12; [now left | exact Hb].
  - apply IH. intros x y Hx Hy. apply H12; [now right | exact Hy].
Qed.

Lemma pairs_rev {A : Type} (R : A -> A -> Prop) (l : list A) :
  ForallOrdPairs R l -> ForallOrdPairs (fun a b => R b a) (rev l).
Proof.
  induction 1 as [|a l Ha _ IH]; cbn; [constructor|].
  apply pairs_app; [exact IH | repeat constructor |].
  intros x y Hx [<-|[]]. apply in_rev in Hx.
  rewrite Forall_forall in Ha. now apply Ha.
Qed.

Lemma pairs_all {A : Type} (l : list A) :
  ForallOrdPairs (fun _ _ => True) l.
Proof.
  induction l as [|a l IH]; constructor; [|exact IH].
  apply Forall_forall. trivial.
Qed.

Section StableSort.

Context {A K : Type} `{PyOrdLaws K}.
Variable key : A -> K.

Local Abbreviation isort := (isort key).
Local Abbreviation le := (le key).
Local Abbreviation refined := (refined key).

Lemma sort_stable_rev (l : list A) : sort_stable key (rev l) = isort l.
Proof.
  unfold sort_stable, isort.
  rewrite <- (fold_left_rev_right (fun x acc => insort key x acc)).
  now rewrite rev_involutive.
Qed.

Lemma sort_keyed_reverse (l : list A) : sort_keyed key true l = rev (isort l).
Proof. unfold sort_keyed. now rewrite sort_stable_rev. Qed.

Lemma insort_in (x z : A) (s : list A) :
  In z (insort key x s) <-> z = x \/ In z s.
Proof.
  induction s as [|y r IH]; cbn.
  - intuition congruence.
  - destruct (py_lt (key x) (key y)); cbn; [intuition congruence|].
    rewrite IH. intuition congruence.
Qed.

Lemma isort_in (z : A) (l : list A) : In z (isort l) <-> In z l.
Proof.
  induction l as [|x l IH]; cbn; [tauto|].
  rewrite insort_in, IH. intuition congruence.
Qed.

Lemma insort_forall (P : A -> Prop) (x : A) (s : list A) :
  P x -> Forall P s -> Forall P (insort key x s).
Proof.
  intros Hx Hs. apply Forall_forall. intros z Hz.
  apply insort_in in Hz. destruct Hz as [->|Hz]; [exact Hx|].
  rewrite Forall_forall in Hs. now apply Hs.
Qed.

(** An element below the whole list goes in front. *)
Lemma insort_below (x : A) (s : list A) :
  Forall (fun z => py_lt (key x) (key z) = true) s ->
  insort key x s = x :: s.
Proof.
  destruct s as [|y r]; [reflexivity|].
  intros Hs. inversion Hs as [|? ? Hy _]. subst. cbn. now rewrite Hy.
Qed.

(** An element not below any of the list goes behind. *)
Lemma insort_behind (x : A) (s : list A) :
  Forall (fun z => py_lt (key x) (key z) = false) s ->
  insort key x s = (s ++ [x])%list.
Proof.
  induction 1 as [|y r Hy _ IH]; [reflexivity|].
  cbn. now rewrite Hy, IH.
Qed.

Lemma insort_sorted (x : A) (s : list A) :
  ForallOrdPairs le s -> ForallOrdPairs le (insort key x s).
Proof.
  induction 1 as [|y r Hy Hr IH]; cbn; [repeat constructor|].
  destruct (py_lt (key x) (key y)) eqn:E.
  - constructor; [|now constructor].
    constructor; [now apply lt_asym|].
    eapply Forall_impl; [|exact Hy]. intros z Hz. unfold le in *.
    eapply le_trans; [|exact Hz]. now apply lt_asym.
  - constructor; [|exact IH].
    apply insort_forall; [exact E | exact Hy].
Qed.

Lemma isort_sorted (l : list A) : ForallOrdPairs le (isort l).
Proof.
  induction l as [|x l IH]; cbn; [constructor|].
  now apply insort_sorted.
Qed.

(** Filtering commutes with the sort. *)
Lemma insort_filter (p : A -> bool) (x : A) (s : list A) :
  ForallOrdPairs le s ->
  filter p (insort key x s) =
  if p x then insort key x (filter p s) else filter p s.
Proof.
  induction 1 as [|y r Hy Hr IH]; cbn [insort filter].
  - now destruct (p x).
  - destruct (py_lt (key x) (key y)) eqn:E.
    + cbn [filter]. destruct (p x) eqn:Px; [|reflexivity].
      symmetry. apply (insort_below x (filter p (y :: r))).
      apply Forall_forall. intros z Hz. apply filter_In in Hz.
      destruct Hz as [[<-|Hz] _]; [exact E|].
      rewrite Forall_forall in Hy. specialize (Hy z Hz). unfold le in Hy.
      eapply lt_le_trans; [exact E | exact Hy].
    + cbn [filter]. rewrite IH.
      destruct (p y) eqn:Py; destruct (p x) eqn:Px; cbn [insort];
        try rewrite E; reflexivity.
Qed.

Lemma isort_filter (p : A -> bool) (l : list A) :
  filter p (isort l) = isort (filter p l).
Proof.
  induction l as [|x l IH]; [reflexivity|].
  cbn [isort fold_right filter].
  rewrite insort_filter by apply isort_sorted.
  fold (isort l). rewrite IH. now destruct (p x).
Qed.

(** Elements with one and the same key keep their order: the sort of
    the reversed list reverses them. *)
Lemma isort_one_key (k : K) (l : list A) :
  Forall (fun x => key x = k) l -> isort l = rev l.
Proof.
  induction 1 as [|x l Hx Hl IH]; [reflexivity|].
  cbn [isort fold_right rev]. fold (isort l). rewrite IH.
  apply insort_behind. apply Forall_forall. intros z Hz.
  apply in_rev in Hz. rewrite Forall_forall in Hl.
  rewrite Hx, (Hl z Hz). apply lt_irrefl.
Qed.

Lemma refined_le (R : A -> A -> Prop) (a b : A) : refined R a b -> le a b.
Proof.
  unfold le. intros [Hlt | [E _]]; [now apply lt_asym|].
  rewrite E. apply lt_irrefl.
Qed.

Lemma insort_refined (R : A -> A -> Prop) (x : A) (s : list A) :
  Forall (R x) s ->
  ForallOrdPairs (refined R) s ->
  ForallOrdPairs (refined R) (insort key x s).
Proof.
  intros Hx Hs. induction Hs as [|y r Hy Hr IH]; cbn; [repeat constructor|].
  inversion Hx as [|? ? Rxy Rxr]. subst.
  destruct (py_lt (key x) (key y)) eqn:E.
  - constructor; [|now constructor].
    constructor; [now left|].
    eapply Forall_impl; [|exact Hy]. intros z Hz. left.
    apply refined_le in Hz. unfold le in Hz.
    eapply lt_le_trans; [exact E | exact Hz].
  - constructor; [|now apply IH].
    apply insort_forall; [|exact Hy].
    destruct (py_lt (key y) (key x)) eqn:E'; [now left|].
    right. split; [now apply lt_total | exact Rxy].
Qed.

Lemma isort_refined (R : A -> A -> Prop) (l : list A) :
  ForallOrdPairs R l -> ForallOrdPairs (refined R) (isort l).
Proof.
  induction 1 as [|x l Hx Hl IH]; [constructor|].
  change (isort (x :: l)) with (insort key x (isort l)).
  apply insort_refined; [|exact IH].
  apply Forall_forall. intros z Hz. apply (proj1 (isort_in z l)) in Hz.
  rewrite Forall_forall in Hx. now apply Hx.
Qed.

(** Two sorted lists with the same elements of each key, in the same
    order, are the same list. *)
Lemma sorted_unique (l1 : list A) :
  forall l2,
    ForallOrdPairs le l1 -> ForallOrdPairs le l2 ->
    (forall k, filter (fun x => py_eq (key x) k) l1
               = filter (fun x => py_eq (key x) k) l2) ->
    l1 = l2.
Proof.
  induction l1 as [|a t1 IH]; intros [|b t2] H1 H2 Hf.
  - reflexivity.
  - specialize (Hf (key b)). cbn in Hf. rewrite eq_refl_true in Hf. discriminate.
  - specialize (Hf (key a)). cbn in Hf. rewrite eq_refl_true in Hf. discriminate.
  - inversion H1 as [|? ? Ha H1']. inversion H2 as [|? ? Hb H2']. subst.
    assert (Hab : le a b).
    { pose proof (Hf (key b)) as Hfb.
      assert (Hin : In b (filter (fun x => py_eq (key x) (key b)) (a :: t1))).
      { rewrite Hfb. cbn. rewrite eq_refl_true. now left. }
      apply filter_In in Hin. destruct Hin as [[->|Hin] _].
      - unfold le. apply lt_irrefl.
      - rewrite Forall_forall in Ha. now apply Ha. }
    assert (Hba : le b a).
    { pose proof (Hf (key a)) as Hfa.
      assert (Hin : In a (filter (fun x => py_eq (key x) (key a)) (b :: t2))).
      { rewrite <- Hfa. cbn. rewrite eq_refl_true. now left. }
      apply filter_In in Hin. destruct Hin as [[->|Hin] _].
      - unfold le. apply lt_irrefl.
      - rewrite Forall_forall in Hb. now apply Hb. }
    assert (E : key a = key b) by now apply lt_total.
    assert (a = b).
    { specialize (Hf (key a)). cbn in Hf.
      rewrite eq_refl_true, <- E, eq_refl_true in Hf. congruence. }
    subst b. f_equal. apply IH; try assumption.
    intros k. specialize (Hf k). cbn in Hf.
    destruct (py_eq (key a) k); congruence.
Qed.

End StableSort.

(** *** Three sorts in a row *)

Section ThreeSorts.

Context {A KD KT KV : Type}.
Context `{PyOrdLaws KD} `{PyOrdLaws KT} `{PyOrdLaws KV}.
Variable d : A -> KD.
Variable t : A -> KT.
Variable v : A -> KV.

Local Abbreviation by_dv := (by_dv d v).
Local Abbreviation by_dtv := (by_dtv d t v).

Lemma refined_thrice (a b : A) :
  refined d (fun x y =>
    refined t (fun x' y' => refined by_dv (fun _ _ => True) y' x') y x) a b ->
  le by_dtv a b.
Proof.
  unfold refined, le, by_dtv, by_dv, triple. cbn.
  intros [Hd | [Ed [Ht | [Et [Hv | [Ev _]]]]]].
  - destruct (py_eq (d b) (d a)) eqn:E; [|now apply lt_asym].
    apply eq_spec in E. rewrite E, lt_irrefl in Hd. discriminate.
  - rewrite Ed, eq_refl_true.
    destruct (py_eq (t b) (t a)) eqn:E; [|now apply lt_asym].
    apply eq_spec in E. rewrite E, lt_irrefl in Ht. discriminate.
  - rewrite Ed, Et, !eq_refl_true.
    rewrite Ed, eq_refl_true in Hv. now apply lt_asym.
  - rewrite Ed, Et, !eq_refl_true.
    injection Ev as _ Ev. rewrite Ev. apply lt_irrefl.
Qed.

Lemma three_sorts_sorted (l : list A) :
  ForallOrdPairs (le by_dtv)
    (isort d (rev (isort t (rev (isort by_dv l))))).
Proof.
  eapply pairs_impl; [apply refined_thrice|].
  apply isort_refined.
  apply (pairs_rev (refined t (fun x' y' => refined by_dv (fun _ _ => True) y' x'))).
  apply isort_refined.
  apply (pairs_rev (refined by_dv (fun _ _ => True))).
  apply isort_refined. apply pairs_all.
Qed.

Lemma three_sorts_filter (k : KD * (KT * KV)) (l : list A) :
  filter (fun x => py_eq (by_dtv x) k)
    (isort d (rev (isort t (rev (isort by_dv l)))))
  = filter (fun x => py_eq (by_dtv x) k) (isort by_dtv l).
Proof.
  rewrite (isort_filter d), filter_rev, (isort_filter t), filter_rev,
    (isort_filter by_dv), (isort_filter by_dtv).
  set (F := filter (fun x => py_eq (by_dtv x) k) l).
  assert (HF : Forall (fun x => by_dtv x = k) F).
  { apply Forall_forall. intros x Hx. apply filter_In in Hx.
    now apply eq_spec. }
  rewrite (isort_one_key by_dtv k F HF).
  rewrite (isort_one_key by_dv (fst k, snd (snd k)) F).
  2:{ eapply Forall_impl; [|exact HF]. intros x <-. reflexivity. }
  rewrite rev_involutive.
  rewrite (isort_one_key t (fst (snd k)) F).
  2:{ eapply Forall_impl; [|exact HF]. intros x <-. reflexivity. }
  rewrite rev_involutive.
  apply (isort_one_key d (fst k)).
  eapply Forall_impl; [|exact HF]. intros x <-. reflexivity.
Qed.

(** Descending by (d, v), then by t, then by d, is descending by
    (d, t, v). *)
Lemma three_sorts_are_one (l : list A) :
  sort_keyed d true (sort_keyed t true (sort_keyed by_dv true l))
  = sort_keyed by_dtv true l.
Proof.
  rewrite !sort_keyed_reverse. f_equal.
  apply (sorted_unique by_dtv).
  - apply three_sorts_sorted.
  - apply isort_sorted.
  - intros k. apply three_sorts_filter.
Qed.

End ThreeSorts.

(** *** [sorted] with keys that may raise *)

Lemma comprehension_total {A B : Type} (f : A -> result B) (g : A -> B)
    (l : list A) :
  Forall (fun x => f x = OK (g x)) l -> comprehension f l = OK (map g l).
Proof.
  induction 1 as [|x l Hx _ IH]; [reflexivity|].
  cbn. now rewrite Hx, IH.
Qed.

Lemma comprehension_raises {A B : Type} (f : A -> result B) (e : exn)
    (l : list A) :
  (forall x e', f x = Raise e' -> e' = e) ->
  Exists (fun x => f x = Raise e) l ->
  comprehension f l = Raise e.
Proof.
  intros He. induction 1 as [x l Hx | x l _ IH]; cbn.
  - now rewrite Hx.
  - destruct (f x) as [y|e'] eqn:E; cbn.
    + now rewrite IH.
    + now rewrite (He _ _ E).
Qed.

Lemma comprehension_results {A B : Type} (f : A -> result B) (l : list A) :
  forall ys,
    comprehension f l = OK ys ->
    Forall (fun y => exists x, In x l /\ f x = OK y) ys.
Proof.
  induction l as [|x l IH]; cbn; intros ys.
  - intros [= <-]. constructor.
  - destruct (f x) as [y|] eqn:E; cbn; [|discriminate].
    destruct (comprehension f l) as [ys'|]; cbn; [|discriminate].
    intros [= <-]. constructor; [now exists x; auto|].
    eapply Forall_impl; [|apply IH; reflexivity].
    intros z (x' & Hin & Hz). exists x'. auto.
Qed.

Section Decorated.

Context {A K : Type} `{PyOrd K}.
Variable k : A -> K.

Local Abbreviation decorate := (decorate k).

Lemma insort_decorated (x : A) (s : list A) :
  insort fst (decorate x) (map decorate s) = map decorate (insort k x s).
Proof.
  induction s as [|y r IH]; [reflexivity|].
  cbn [map insort fst decorate] in *.
  destruct (py_lt (k x) (k y)); [reflexivity|]. now rewrite IH.
Qed.

Lemma sort_stable_decorated (l : list A) :
  sort_stable fst (map decorate l) = map decorate (sort_stable k l).
Proof.
  unfold sort_stable. change (@nil (K * A)) with (map decorate []).
  generalize (@nil A). induction l as [|x l IH]; intros acc; [reflexivity|].
  cbn [map fold_left]. now rewrite insort_decorated, IH.
Qed.

Lemma sort_keyed_decorated (reverse : bool) (l : list A) :
  map snd (sort_keyed fst reverse (map decorate l)) = sort_keyed k reverse l.
Proof.
  assert (Hsnd : forall s, map snd (map decorate s) = s).
  { intros s. rewrite map_map. cbn. apply map_id. }
  unfold sort_keyed. destruct reverse.
  - now rewrite <- map_rev, sort_stable_decorated, <- map_rev, Hsnd.
  - now rewrite sort_stable_decorated, Hsnd.
Qed.

(** With keys that do not raise, [sorted] is the sort by these keys. *)
Lemma sorted_total (key : A -> result K) (reverse : bool) (l : list A) :
  Forall (fun x => key x = OK (k x)) l ->
  sorted l key reverse = OK (sort_keyed k reverse l).
Proof.
  intros Hl. unfold sorted.
  rewrite (comprehension_total _ decorate).
  - cbn [bind]. now rewrite sort_keyed_decorated.
  - eapply Forall_impl; [|exact Hl]. intros x Hx. now rewrite Hx.
Qed.

(** A key that raises ends [sorted] with that exception. *)
Lemma sorted_raises (key : A -> result K) (reverse : bool) (e : exn)
    (l : list A) :
  (forall x e', key x = Raise e' -> e' = e) ->
  Exists (fun x => key x = Raise e) l ->
  sorted l key reverse = Raise e.
Proof.
  intros He Hl. unfold sorted.
  rewrite (comprehension_raises _ e); [reflexivity | |].
  - intros x e'. destruct (key x) as [y|e''] eqn:E; cbn; [discriminate|].
    intros [= <-]. now apply (He x).
  - eapply Exists_impl; [|exact Hl]. intros x Hx. now rewrite Hx.
Qed.

End Decorated.

Lemma sort_keyed_in {A K : Type} `{PyOrdLaws K} (k : A -> K) (z : A)
    (l : list A) :
  In z (sort_keyed k true l) <-> In z l.
Proof. rewrite sort_keyed_reverse, <- in_rev. apply isort_in. Qed.

(** ** The selection *)

Lemma dated_key (r : ImageInfo.t) :
  dated r -> Main.mdate_date r = OK (date_of r).
Proof.
  unfold dated, Main.mdate_date, date_of.
  destruct (ImageInfo.mdate r); [reflexivity | congruence].
Qed.

Lemma undated_key (r : ImageInfo.t) :
  ~ dated r -> Main.mdate_date r = Raise AttributeError.
Proof.
  unfold dated, Main.mdate_date.
  destruct (ImageInfo.mdate r); [|reflexivity].
  intros H. elim H. discriminate.
Qed.

Lemma mdate_date_raises (r : ImageInfo.t) (e : exn) :
  Main.mdate_date r = Raise e -> e = AttributeError.
Proof.
  unfold Main.mdate_date. destruct (ImageInfo.mdate r); [discriminate|].
  now intros [= <-].
Qed.

Lemma sort_by_triple_dated (images : list ImageInfo.t) :
  Forall dated images ->
  sort_by_triple images
  = OK (sort_keyed (by_dtv date_of ImageInfo.type ImageInfo.version) true images).
Proof.
  intros Hd. unfold sort_by_triple. apply sorted_total.
  eapply Forall_impl; [|exact Hd]. intros r Hr.
  unfold key_date_type_version. now rewrite (dated_key r Hr).
Qed.

Lemma sort_results_dated (images : list ImageInfo.t) :
  Forall dated images ->
  Main.sort_results images
  = OK (sort_keyed (by_dtv date_of ImageInfo.type ImageInfo.version) true images).
Proof.
  intros Hd. unfold Main.sort_results.
  rewrite (sorted_total (by_dv date_of ImageInfo.version)).
  2:{ eapply Forall_impl; [|exact Hd]. intros r Hr.
      unfold Main.key_date_version. now rewrite (dated_key r Hr). }
  cbn [bind].
  rewrite (sorted_total ImageInfo.type).
  2:{ apply Forall_forall. reflexivity. }
  cbn [bind].
  rewrite (sorted_total date_of).
  2:{ apply Forall_forall. intros r Hr.
      apply sort_keyed_in in Hr. apply sort_keyed_in in Hr.
      rewrite Forall_forall in Hd. apply dated_key. now apply Hd. }
  now rewrite three_sorts_are_one.
Qed.

Lemma sort_undated (images : list ImageInfo.t) :
  Exists (fun r => ~ dated r) images ->
  Main.sort_results images = Raise AttributeError /\
  sort_by_triple images = Raise AttributeError.
Proof.
  intros Hu. split.
  - unfold Main.sort_results.
    rewrite (sorted_raises Main.key_date_version true AttributeError); [reflexivity | |].
    + intros r e. unfold Main.key_date_version.
      destruct (Main.mdate_date r) eqn:E; cbn; [discriminate|].
      intros [= <-]. now apply (mdate_date_raises r).
    + eapply Exists_impl; [|exact Hu]. intros r Hr.
      unfold Main.key_date_version. now rewrite (undated_key r Hr).
  - unfold sort_by_triple.
    apply sorted_raises.
    + intros r e. unfold key_date_type_version.
      destruct (Main.mdate_date r) eqn:E; cbn; [discriminate|].
      intros [= <-]. now apply (mdate_date_raises r).
    + eapply Exists_impl; [|exact Hu]. intros r Hr.
      unfold key_date_type_version. now rewrite (undated_key r Hr).
Qed.

(** C1: the three stable descending sorts of [main], by (date, version),
    then by type, then by date, give the list that one stable descending
    sort by the triple (date, type, version) gives; when a record has no
    date both raise [AttributeError]. *)
Theorem three_sorts_one_order (images : list ImageInfo.t) :
  Main.sort_results images = sort_by_triple images.
Proof.
  destruct (Forall_Exists_dec dated) with (l := images) as [Hd|Hu].
  - intros r. unfold dated. destruct (ImageInfo.mdate r); [left | right]; congruence.
  - now rewrite sort_results_dated, sort_by_triple_dated.
  - destruct (sort_undated images Hu) as [-> ->]. reflexivity.
Qed.

(** *** Substrings *)

Lemma startswith_spec (s p : string) :
  Str.startswith s p = true <-> exists b, s = p ++ b.
Proof.
  revert s. induction p as [|a p IH]; intros s.
  - split; [intros _; now exists s | intros _; now destruct s].
  - destruct s as [|c s]; cbn [Str.startswith].
    + split; [discriminate | intros (b & Hb); discriminate].
    + rewrite andb_true_iff, Ascii.eqb_eq, IH. split.
      * intros (-> & b & ->). now exists b.
      * intros (b & [= -> ->]). split; [reflexivity | now exists b].
Qed.

Lemma contains_unfold (sub s : string) :
  Str.contains sub s =
  Str.startswith s sub ||
  match s with EmptyString => false | String _ s' => Str.contains sub s' end.
Proof. destruct s; reflexivity. Qed.

(** [sub in s]: [s] is some text, [sub], and some more text. *)
Lemma contains_spec (sub s : string) :
  Str.contains sub s = true <-> exists a b, s = a ++ sub ++ b.
Proof.
  induction s as [|c s IH]; rewrite contains_unfold, orb_true_iff, startswith_spec.
  - split.
    + intros [(b & Hb) | H]; [|discriminate]. now exists "", b.
    + intros (a & b & H). left. destruct a; [|discriminate]. now exists b.
  - rewrite IH. split.
    + intros [(b & Hb) | (a & b & ->)]; [now exists "", b|].
      now exists (String c a), b.
    + intros ([|x a] & b & H).
      * left. now exists b.
      * right. injection H as -> ->. now exists a, b.
Qed.

Lemma endswith_unfold (s p : string) :
  Str.endswith s p =
  String.eqb s p ||
  match s with EmptyString => false | String _ s' => Str.endswith s' p end.
Proof. destruct s; reflexivity. Qed.

(** [s.endswith(p)]: [s] is some text and then [p]. *)
Lemma endswith_spec (s p : string) :
  Str.endswith s p = true <-> exists a, s = a ++ p.
Proof.
  induction s as [|c s IH]; rewrite endswith_unfold, orb_true_iff, String.eqb_eq.
  - split.
    + intros [<- | H]; [now exists "" | discriminate].
    + intros ([|x a] & H); [now left | discriminate].
  - rewrite IH. split.
    + intros [<- | (a & ->)]; [now exists "" | now exists (String c a)].
    + intros ([|x a] & H); [now left|].
      right. injection H as -> ->. now exists a.
Qed.

Lemma contains_in_front (sub a b : string) :
  Str.contains sub a = true -> Str.contains sub (a ++ b) = true.
Proof.
  rewrite !contains_spec. intros (x & y & ->). exists x, (y ++ b).
  now rewrite !append_assoc.
Qed.

(** *** The filter *)

Lemma keeps_spec (o : options) (r : ImageInfo.t) :
  keeps o r = true <-> Keeps o r.
Proof.
  unfold keeps, Keeps. rewrite !andb_true_iff, !orb_true_iff.
  assert (Hty : match opt_type o with
                | Some ty => Str.endswith (ImageInfo.type r) ty
                | None => true
                end = true <->
                opt_type o = None \/
                exists ty a, opt_type o = Some ty /\ ImageInfo.type r = a ++ ty).
  { destruct (opt_type o) as [ty|]; [|intuition].
    rewrite endswith_spec. split.
    - intros (a & Ha). right. now exists ty, a.
    - intros [H | (ty' & a & [= <-] & Ha)]; [discriminate | now exists a]. }
  assert (Hv : match opt_version o with
               | Some v => String.eqb (ImageInfo.version r) v
               | None => true
               end = true <->
               opt_version o = None \/ opt_version o = Some (ImageInfo.version r)).
  { destruct (opt_version o) as [v|]; [|intuition].
    rewrite String.eqb_eq. split.
    - intros ->. now right.
    - intros [H | [= ->]]; [discriminate | reflexivity]. }
  rewrite Hty, Hv. tauto.
Qed.

Lemma filter_results_filter (o : options) (results : list ImageInfo.t) :
  Main.filter_results o results = filter (keeps o) results.
Proof.
  induction results as [|img rest IH]; [reflexivity|].
  cbn [Main.filter_results filter]. unfold keeps at 1. rewrite IH.
  destruct (match opt_type o with
            | Some ty => Str.endswith (ImageInfo.type img) ty
            | None => true
            end); [|reflexivity].
  destruct (match opt_version o with
            | Some v => String.eqb (ImageInfo.version img) v
            | None => true
            end); reflexivity.
Qed.

(** C2: the filter keeps a record exactly when its type ends with the
    requested suffix (or none is requested), its version is the requested
    one (or none is requested) and one of prerelease, full release, latest
    and release holds; the order is kept, and the selection is the first
    record kept, or the no-match outcome when none is. *)
Theorem filter_keeps_and_selects_first (o : options)
    (results : list ImageInfo.t) :
  Main.filter_results o results = filter (keeps o) results /\
  (forall r, In r (Main.filter_results o results) <-> In r results /\ Keeps o r) /\
  Main.select (Main.filter_results o results)
  = match filter (keeps o) results with
    | first :: _ => Selected first
    | [] => NoImagesFound
    end.
Proof.
  rewrite filter_results_filter. split; [reflexivity|]. split; [|reflexivity].
  intros r. now rewrite filter_In, keeps_spec.
Qed.

(** *** The two flags *)

Lemma filter_results_swap (o : options) (results : list ImageInfo.t) :
  Main.filter_results (swap_flags o) results = Main.filter_results o results.
Proof.
  rewrite !filter_results_filter. apply filter_ext. intros r.
  unfold keeps, swap_flags. cbn.
  destruct (opt_prerelease o), (opt_latest o), (ImageInfo.is_full_release r),
    (ImageInfo.is_release r); reflexivity.
Qed.

(** C9: with the values of prerelease and latest exchanged the selection
    and the whole [get] command end the same way, and either flag alone
    opens the gate for every record: the filter of [main] then keeps
    exactly the records whose type and version fit, whatever their
    version says about releases. *)
Theorem flags_are_interchangeable
    (urlparse_path : string -> string) (urljoin : string -> string -> string)
    (b_url : string) (s3_list : string -> document)
    (o : options) (images : list ImageInfo.t) :
  Main.selection (swap_flags o) images = Main.selection o images /\
  Main.get urlparse_path urljoin b_url s3_list (swap_flags o)
  = Main.get urlparse_path urljoin b_url s3_list o /\
  (forall r,
      release_gate (mkoptions (opt_board o) (opt_language o) (opt_version o)
                              (opt_type o) true false) r = true /\
      release_gate (mkoptions (opt_board o) (opt_language o) (opt_version o)
                              (opt_type o) false true) r = true) /\
  (forall results,
      Main.filter_results
        (mkoptions (opt_board o) (opt_language o) (opt_version o)
                   (opt_type o) true false) results
      = filter (type_and_version_fit o) results /\
      Main.filter_results
        (mkoptions (opt_board o) (opt_language o) (opt_version o)
                   (opt_type o) false true) results
      = filter (type_and_version_fit o) results).
Proof.
  assert (Hsel : forall o' l, Main.selection (swap_flags o') l = Main.selection o' l).
  { intros o' l. unfold Main.selection. destruct (Main.sort_results l); cbn [bind];
      [|reflexivity]. now rewrite filter_results_swap. }
  split; [apply Hsel|]. split; [|split].
  - unfold Main.get. cbn [opt_board opt_language opt_version opt_type
                          opt_prerelease opt_latest swap_flags].
    destruct (FirmwareDownloader.list_images _ _ _ _ _ _); cbn [bind]; [|reflexivity].
    apply (Hsel (mkoptions (opt_board o) (opt_language o) (opt_version o)
                   (Main.normalize_type (opt_type o))
                   (opt_prerelease o) (opt_latest o))).
  - intros r. unfold release_gate. cbn.
    split; [reflexivity | now rewrite !orb_true_r].
  - intros results. rewrite !filter_results_filter.
    split; apply filter_ext; intros r; unfold keeps, type_and_version_fit;
      cbn [opt_type opt_version opt_prerelease opt_latest];
      destruct (ImageInfo.is_full_release r), (ImageInfo.is_release r);
      cbn [orb]; now rewrite andb_true_r.
Qed.

(** ** A small bucket *)

Example sample_versions :
  FirmwareDownloader.list_versions Urllib.path Urllib.join bucket_url
    sample_bucket "pyportal" "en_US" None
  = mktrace ["7.3.1"; "8.0.0-beta.1"; "8.0.0-beta.1"] None /\
  FirmwareDownloader.list_versions Urllib.path Urllib.join bucket_url
    sample_bucket "pyportal" "en_US" (Some "beta")
  = mktrace ["8.0.0-beta.1"; "8.0.0-beta.1"] None.
Proof. split; reflexivity. Qed.

Example sample_sorted :
  match sample_images with
  | OK images =>
      match Main.sort_results images with
      | OK results =>
          map (fun r => (ImageInfo.version r, ImageInfo.type r)) results
          = [("8.0.0-beta.1", ".uf2"); ("20230301-7b4558b", ".uf2");
             ("8.0.0-beta.1", ".bin"); ("7.3.1", ".uf2")]
      | Raise _ => False
      end
  | Raise _ => False
  end.
Proof. vm_compute. reflexivity. Qed.

Example sample_get :
  Main.get Urllib.path Urllib.join bucket_url sample_bucket
    (mkoptions "pyportal" "en_US" None (Some "bin") false false)
  = OK (Selected
          (ImageInfo.mk
             "adafruit-circuitpython-pyportal-en_US-8.0.0-beta.1.bin"
             (bucket_url ++
              "/bin/pyportal/en_US/adafruit-circuitpython-pyportal-en_US-8.0.0-beta.1.bin")
             (Some 1000%Z) (Some later_time)
             "pyportal" "en_US" "8.0.0-beta.1" ".bin")).
Proof. vm_compute. reflexivity. Qed.

(** ** The catalog queries *)

Lemma from_url_mdate (urlparse_path : string -> string) (url : string)
    (size : option Z) (mdate : option datetime) (r : ImageInfo.t) :
  ImageInfo.from_url urlparse_path url size mdate = OK r ->
  ImageInfo.mdate r = mdate.
Proof.
  unfold ImageInfo.from_url.
  destruct (Str.item_m1 _) as [filename|]; cbn [bind]; [|discriminate].
  destruct (ImageInfo.FILETYPE_REGEX_match filename) as [[stem ty]|]; [|discriminate].
  destruct (Str.split_max "-" stem 4) as [|a [|b [|c [|d [|e [|f l]]]]]];
    try discriminate.
  now intros [= <-].
Qed.

Section Catalog.

Variable urlparse_path : string -> string.
Variable urljoin : string -> string -> string.
Variable b_url : string.
Variable s3_list : string -> document.

(** Every record of [list_images] carries its modification time. *)
Lemma list_images_dated (board language : string) (images : list ImageInfo.t) :
  FirmwareDownloader.list_images urlparse_path urljoin b_url s3_list
    board language = OK images ->
  Forall dated images.
Proof.
  unfold FirmwareDownloader.list_images. intros H.
  apply comprehension_results in H.
  eapply Forall_impl; [|exact H].
  intros r ([[key size] date] & _ & Hr).
  apply from_url_mdate in Hr. unfold dated. rewrite Hr. discriminate.
Qed.

Lemma yield_versions_filter (search : option string)
    (images : list ImageInfo.t) :
  FirmwareDownloader.yield_versions search images
  = map ImageInfo.version
      (filter (fun image =>
                 ImageInfo.is_release image &&
                 FirmwareDownloader.search_matches search (ImageInfo.version image))
              images).
Proof.
  induction images as [|image rest IH]; [reflexivity|].
  cbn [FirmwareDownloader.yield_versions filter]. rewrite IH.
  destruct (FirmwareDownloader.search_matches search (ImageInfo.version image)),
    (ImageInfo.is_release image); reflexivity.
Qed.

Lemma yield_names_filter (search : string) (keys : list string) :
  FirmwareDownloader.yield_names (Some search) keys
  = FirmwareDownloader.yield_names None (filter (Str.contains search) keys).
Proof.
  induction keys as [|key rest IH]; [reflexivity|].
  cbn [FirmwareDownloader.yield_names filter
       FirmwareDownloader.search_matches].
  destruct (Str.contains search key); [|exact IH].
  cbn [FirmwareDownloader.yield_names FirmwareDownloader.search_matches].
  now rewrite IH.
Qed.

Lemma filter_all {A : Type} (p : A -> bool) (l : list A) :
  forallb p l = true -> filter p l = l.
Proof.
  induction l as [|x l IH]; cbn; [reflexivity|].
  intros H. apply andb_true_iff in H. destruct H as [-> H]. now rewrite IH.
Qed.

Lemma forallb_mapped {A B : Type} (f : A -> B) (p : B -> bool) (l : list A) :
  forallb p (map f l) = forallb (fun x => p (f x)) l.
Proof. induction l as [|x l IH]; cbn; [reflexivity | now rewrite IH]. Qed.

Lemma yield_names_all (search : string) (doc : document) :
  forallb (fun prefix => Str.contains search (urljoin b_url prefix))
          (common_prefixes doc) = true ->
  FirmwareDownloader.yield_names (Some search)
    (FirmwareDownloader.parse_common_prefixes urljoin b_url doc)
  = FirmwareDownloader.yield_names None
      (FirmwareDownloader.parse_common_prefixes urljoin b_url doc).
Proof.
  intros H. rewrite yield_names_filter. f_equal.
  apply filter_all. unfold FirmwareDownloader.parse_common_prefixes.
  now rewrite forallb_mapped.
Qed.

End Catalog.

Lemma filter_none {A : Type} (p : A -> bool) (l : list A) :
  (forall x, In x l -> p x = false) -> filter p l = [].
Proof.
  induction l as [|x l IH]; cbn; [reflexivity|].
  intros Hl. rewrite (Hl x) by now left. apply IH.
  intros y Hy. apply Hl. now right.
Qed.

(** C7: when [list_images] returns, [list_versions] yields the versions
    of those of its records that are releases and, with a search string,
    contain it in the version, in the order of [list_images], and then
    ends. *)
Theorem list_versions_of_releases
    (urlparse_path : string -> string) (urljoin : string -> string -> string)
    (b_url : string) (s3_list : string -> document)
    (board language : string) (search : option string)
    (images : list ImageInfo.t) :
  FirmwareDownloader.list_images urlparse_path urljoin b_url s3_list
    board language = OK images ->
  FirmwareDownloader.list_versions urlparse_path urljoin b_url s3_list
    board language search
  = mktrace
      (map ImageInfo.version
         (filter (fun image =>
                    ImageInfo.is_release image &&
                    match search with
                    | None => true
                    | Some sub => Str.contains sub (ImageInfo.version image)
                    end)
                 images))
      None.
Proof.
  intros H. unfold FirmwareDownloader.list_versions. rewrite H.
  now rewrite yield_versions_filter.
Qed.

Lemma list_versions_of_releases_witness :
  match sample_images with
  | OK images =>
      FirmwareDownloader.list_versions Urllib.path Urllib.join bucket_url
        sample_bucket "pyportal" "en_US" (Some "beta")
      = mktrace
          (map ImageInfo.version
             (filter (fun image =>
                        ImageInfo.is_release image &&
                        Str.contains "beta" (ImageInfo.version image))
                     images))
          None
  | Raise _ => False
  end.
Proof.
  destruct sample_images as [images|e] eqn:E; [|discriminate E].
  apply (list_versions_of_releases Urllib.path Urllib.join bucket_url
           sample_bucket "pyportal" "en_US" (Some "beta") images).
  exact E.
Defined.

(** C6: when no record of the listing passes the gate on releases, [get]
    ends with the no-match outcome and raises nothing. *)
Theorem no_release_no_image
    (urlparse_path : string -> string) (urljoin : string -> string -> string)
    (b_url : string) (s3_list : string -> document)
    (o : options) (images : list ImageInfo.t) :
  FirmwareDownloader.list_images urlparse_path urljoin b_url s3_list
    (opt_board o) (opt_language o) = OK images ->
  (forall r, In r images -> release_gate o r = false) ->
  Main.get urlparse_path urljoin b_url s3_list o = OK NoImagesFound /\
  Main.selection o images = OK NoImagesFound.
Proof.
  intros Hl Hg.
  pose proof (list_images_dated _ _ _ _ _ _ _ Hl) as Hd.
  assert (Hsel : forall o',
             opt_prerelease o' = opt_prerelease o ->
             opt_latest o' = opt_latest o ->
             Main.selection o' images = OK NoImagesFound).
  { intros o' Hp Hla. unfold Main.selection.
    rewrite (sort_results_dated images Hd). cbn [bind].
    rewrite filter_results_filter.
    replace (filter (keeps o') _) with (@nil ImageInfo.t); [reflexivity|].
    symmetry. apply filter_none.
    intros r Hr. apply sort_keyed_in in Hr.
    specialize (Hg r Hr). unfold release_gate in Hg.
    unfold keeps. rewrite Hp, Hla, Hg. now rewrite andb_false_r. }
  split; [|now apply Hsel].
  unfold Main.get. cbn [opt_board opt_language]. rewrite Hl. cbn [bind].
  now apply Hsel.
Qed.

Lemma no_release_no_image_witness :
  Main.get Urllib.path Urllib.join bucket_url
    (fun _ => mkdocument
       [ mkContents
           "bin/pyportal/en_US/adafruit-circuitpython-pyportal-en_US-20230301-7b4558b.uf2"
           1026 later_time ] [])
    (mkoptions "pyportal" "en_US" None None false false)
  = OK NoImagesFound.
Proof.
  refine (proj1 (no_release_no_image Urllib.path Urllib.join bucket_url _
                   (mkoptions "pyportal" "en_US" None None false false)
                   [ImageInfo.mk
                      "adafruit-circuitpython-pyportal-en_US-20230301-7b4558b.uf2"
                      (bucket_url ++
                       "/bin/pyportal/en_US/adafruit-circuitpython-pyportal-en_US-20230301-7b4558b.uf2")
                      (Some 1026%Z) (Some later_time)
                      "pyportal" "en_US" "20230301-7b4558b" ".uf2"]
                   _ _)).
  - reflexivity.
  - intros r [<-|[]]. reflexivity.
Defined.

(** C10: [list_boards] and [list_languages] look for the search string in
    the whole joined URL of each common prefix, and yield the next-to-last
    segment of those that contain it; a search string found in every
    joined URL leaves the listing as it is without a search.  In the
    sample bucket the string [amazonaws], part of the bucket URL and of
    no board name, yields every board. *)
Theorem search_sees_the_whole_url
    (urljoin : string -> string -> string)
    (b_url : string) (s3_list : string -> document) (search : string) :
  FirmwareDownloader.list_boards urljoin b_url s3_list (Some search)
  = FirmwareDownloader.yield_names None
      (filter (Str.contains search)
         (map (urljoin b_url) (common_prefixes (s3_list "bin/")))) /\
  (forall board,
      FirmwareDownloader.list_languages urljoin b_url s3_list board (Some search)
      = FirmwareDownloader.yield_names None
          (filter (Str.contains search)
             (map (urljoin b_url)
                (common_prefixes (s3_list ("bin/" ++ board ++ "/")))))) /\
  (forallb (fun prefix => Str.contains search (urljoin b_url prefix))
           (common_prefixes (s3_list "bin/")) = true ->
   FirmwareDownloader.list_boards urljoin b_url s3_list (Some search)
   = FirmwareDownloader.list_boards urljoin b_url s3_list None) /\
  (forall board,
      forallb (fun prefix => Str.contains search (urljoin b_url prefix))
              (common_prefixes (s3_list ("bin/" ++ board ++ "/"))) = true ->
      FirmwareDownloader.list_languages urljoin b_url s3_list board (Some search)
      = FirmwareDownloader.list_languages urljoin b_url s3_list board None) /\
  (let boards := FirmwareDownloader.list_boards Urllib.join bucket_url sample_bucket in
   Str.contains "amazonaws" bucket_url = true /\
   boards None = mktrace ["feather_m4_express"; "pyportal"] None /\
   forallb (fun b => negb (Str.contains "amazonaws" b)) (yielded (boards None)) = true /\
   boards (Some "amazonaws") = boards None).
Proof.
  split; [|split; [|split; [|split]]].
  - unfold FirmwareDownloader.list_boards. apply yield_names_filter.
  - intros board. unfold FirmwareDownloader.list_languages.
    apply yield_names_filter.
  - intros H. unfold FirmwareDownloader.list_boards. now apply yield_names_all.
  - intros board H. unfold FirmwareDownloader.list_languages.
    now apply yield_names_all.
  - cbv zeta. split; [|split; [|split]]; vm_compute; reflexivity.
Qed.

Lemma search_sees_the_whole_url_witness :
  FirmwareDownloader.list_boards Urllib.join bucket_url sample_bucket
    (Some "amazonaws")
  = FirmwareDownloader.list_boards Urllib.join bucket_url sample_bucket None.
Proof.
  apply (proj1 (proj2 (proj2
           (search_sees_the_whole_url Urllib.join bucket_url sample_bucket
              "amazonaws")))).
  vm_compute. reflexivity.
Defined.

(** A search string found in the bucket URL is found in every URL joined
    to it. *)
Lemma search_in_bucket_url (search prefix : string) :
  Str.contains search bucket_url = true ->
  Str.contains search (Urllib.join bucket_url prefix) = true.
Proof. unfold Urllib.join. apply contains_in_front. Qed.

(** * Further properties of the code *)

(** ** The default language *)

Lemma str_replace_removes (old new : ascii) (s : string) :
  Ascii.eqb new old = false -> Str.count old (str_replace old new s) = 0.
Proof.
  intros Hne. induction s as [|c r IH]; [reflexivity|].
  cbn [str_replace Str.count]. rewrite IH.
  destruct (Ascii.eqb c old) eqn:E; [now rewrite Hne | now rewrite E].
Qed.

Lemma str_replace_count (c old new : ascii) (s : string) :
  Ascii.eqb old c = false -> Ascii.eqb new c = false ->
  Str.count c (str_replace old new s) = Str.count c s.
Proof.
  intros Ho Hn. induction s as [|x r IH]; [reflexivity|].
  cbn [str_replace Str.count]. rewrite IH.
  destruct (Ascii.eqb x old) eqn:E; [|reflexivity].
  apply eqb_true in E. subst x. now rewrite Hn, Ho.
Qed.

Lemma str_replace_append (old new : ascii) (a b : string) :
  str_replace old new (a ++ b) = str_replace old new a ++ str_replace old new b.
Proof. induction a as [|c a IH]; cbn; [reflexivity | now rewrite IH]. Qed.

(** The first part of a split is what stands before the first separator. *)
Lemma split_max_first (sep : ascii) (s : string) :
  forall n h t,
    Str.split_max sep s (S n) = h :: t ->
    Str.count sep h = 0 /\ exists rest, s = h ++ rest.
Proof.
  induction s as [|c r IH]; intros n h t.
  - cbn. intros [= <- <-]. split; [reflexivity | now exists ""].
  - cbn [Str.split_max]. destruct (Ascii.eqb c sep) eqn:E.
    + intros [= <- <-]. split; [reflexivity | now exists (String c r)].
    + destruct (Str.split_max sep r (S n)) as [|h' t'] eqn:Es.
      * now apply split_max_not_empty in Es.
      * intros [= <- <-]. destruct (IH _ _ _ Es) as (Hc & rest & Hr).
        split.
        -- cbn [Str.count]. now rewrite E, Hc.
        -- exists rest. cbn. now rewrite <- Hr.
Qed.

(** X1: whatever [LANG] holds, the default language is computed without
    an exception and contains neither a dash nor a dot. *)
Theorem default_language_is_clean (LANG : option string) :
  exists l,
    DEFAULT_LANGUAGE LANG = OK l /\
    Str.count "-" l = 0 /\ Str.count "." l = 0.
Proof.
  unfold DEFAULT_LANGUAGE.
  set (lang := str_replace "-" "_" (str_or LANG "en_US")).
  destruct (Str.split_max "." lang 1) as [|h t] eqn:E.
  - now apply split_max_not_empty in E.
  - exists h. destruct (split_max_first _ _ _ _ _ E) as (Hdot & rest & Hr).
    split; [reflexivity|]. split; [|exact Hdot].
    assert (H : Str.count "-" lang = 0) by now apply str_replace_removes.
    rewrite Hr, count_append in H. lia.
Qed.

(** X2: a [LANG] of the form language.encoding gives the language with
    its dashes turned into underscores; an unset or empty [LANG] gives
    [en_US]. *)
Theorem default_language_drops_encoding (l enc : string) :
  Str.count "." l = 0 ->
  DEFAULT_LANGUAGE (Some (l ++ "." ++ enc)) = OK (str_replace "-" "_" l) /\
  DEFAULT_LANGUAGE None = OK "en_US" /\
  DEFAULT_LANGUAGE (Some "") = OK "en_US".
Proof.
  intros Hl. split; [|split; reflexivity].
  unfold DEFAULT_LANGUAGE, str_or.
  replace (String.eqb (l ++ "." ++ enc) "") with false by now destruct l.
  rewrite str_replace_append. cbn [String.append str_replace Ascii.eqb].
  change (if Ascii.eqb "." "-" then "_"%char else "."%char) with "."%char.
  rewrite split_max_field; [reflexivity|].
  now rewrite str_replace_count.
Qed.

Lemma default_language_drops_encoding_witness :
  DEFAULT_LANGUAGE (Some "de-DE.UTF-8") = OK "de_DE".
Proof.
  apply (proj1 (default_language_drops_encoding "de-DE" "UTF-8" eq_refl)).
Defined.

(** ** The version classifier, continued *)

Lemma release_scan_extends (v w : string) :
  forall st,
    ImageInfo.release_scan st v = true ->
    ImageInfo.release_scan st (v ++ w) = true.
Proof.
  induction v as [|c v IH]; intros st; [discriminate|].
  cbn [String.append ImageInfo.release_scan]. destruct st.
  - intros H. apply andb_true_iff in H. destruct H as [-> H]. now apply IH.
  - destruct (Str.is_digit c); [apply IH|].
    intros H. apply andb_true_iff in H. destruct H as [-> H]. now apply IH.
  - trivial.
Qed.

(** X3: a release stays a release whatever is written behind its
    version: only the beginning of the version is looked at. *)
Theorem release_whatever_follows (i : ImageInfo.t) (w : string) :
  ImageInfo.is_release i = true ->
  ImageInfo.is_release
    (ImageInfo.mk (ImageInfo.name i) (ImageInfo.url i) (ImageInfo.size i)
       (ImageInfo.mdate i) (ImageInfo.board i) (ImageInfo.language i)
       (ImageInfo.version i ++ w) (ImageInfo.type i)) = true.
Proof.
  unfold ImageInfo.is_release, ImageInfo.RELEASE_REGEX_match.
  cbn [ImageInfo.version]. apply release_scan_extends.
Qed.

Lemma release_whatever_follows_witness :
  ImageInfo.is_release
    (ImageInfo.mk "" "" None None "" "" ("8.0.0" ++ "-beta.1") "") = true.
Proof.
  apply (release_whatever_follows
           (ImageInfo.mk "" "" None None "" "" "8.0.0" "") "-beta.1").
  reflexivity.
Defined.

Lemma full_scan_chars (v : string) :
  forall st,
    ImageInfo.full_scan st v = true -> Shape.all release_char v = true.
Proof.
  induction v as [|c v IH]; intros st; [reflexivity|].
  cbn [ImageInfo.full_scan Shape.all]. unfold release_char at 1. destruct st.
  - intros H. apply andb_true_iff in H. destruct H as [-> H].
    cbn [orb andb]. now apply (IH ImageInfo.InDigits).
  - destruct (Str.is_digit c); [cbn [orb andb]; apply IH|].
    destruct (Ascii.eqb c "."); [cbn [orb andb]; apply IH|].
    intros H. apply andb_true_iff in H. destruct H as [-> H].
    apply String.eqb_eq in H. now subst v.
Qed.

Lemma contains_needs_first (a : ascii) (sub s : string) :
  Str.count a s = 0 -> Str.contains (String a sub) s = false.
Proof.
  induction s as [|c r IH]; [reflexivity|].
  intros H. apply count_cons_zero in H. destruct H as [E H].
  rewrite contains_unfold, (IH H). cbn [Str.startswith].
  rewrite Ascii.eqb_sym, E. reflexivity.
Qed.

(** X4: a full release is neither a release candidate nor an alpha: its
    version holds digits and dots only. *)
Theorem full_release_is_final (i : ImageInfo.t) :
  ImageInfo.is_full_release i = true ->
  ImageInfo.is_rc i = false /\ ImageInfo.is_alpha i = false.
Proof.
  unfold ImageInfo.is_full_release, ImageInfo.FULL_RELEASE_REGEX_match,
    ImageInfo.is_rc, ImageInfo.is_alpha.
  intros H. apply full_scan_chars in H.
  split; apply contains_needs_first; eapply all_free; try exact H; reflexivity.
Qed.

Lemma full_release_is_final_witness :
  let i := ImageInfo.mk "" "" None None "" "" "7.3.1" "" in
  ImageInfo.is_rc i = false /\ ImageInfo.is_alpha i = false.
Proof.
  intros i. apply (full_release_is_final i). reflexivity.
Defined.

(** ** The parser, continued *)

Lemma filetype_match_exists (ty : string) :
  Shape.type_suffix ty ->
  forall stem,
    Str.count Str.newline stem = 0 ->
    exists stem' ty',
      ImageInfo.FILETYPE_REGEX_match (stem ++ ty) = Some (stem', ty').
Proof.
  intros Hty. induction stem as [|c r IH]; intros Hnl.
  - exists "", ty. cbn [String.append]. rewrite filetype_match_unfold.
    now rewrite (suffix_scan_complete _ Hty).
  - apply count_cons_zero in Hnl. destruct Hnl as [Hc Hnl].
    rewrite filetype_match_unfold.
    destruct (ImageInfo.suffix_scan ImageInfo.NeedDot (String c r ++ ty)) as [t|].
    + now exists "", t.
    + cbn [String.append]. rewrite Hc.
      destruct (IH Hnl) as (stem' & ty' & ->). cbn. eauto.
Qed.

Lemma from_url_inv (urlparse_path : string -> string) (url : string)
    (size : option Z) (mdate : option datetime) (filename : string)
    (r : ImageInfo.t) :
  Str.item_m1 (Str.split "/" (urlparse_path url)) = OK filename ->
  ImageInfo.from_url urlparse_path url size mdate = OK r ->
  exists stem ty f1 f2 f3 f4 rest,
    ImageInfo.FILETYPE_REGEX_match filename = Some (stem, ty) /\
    stem = f1 ++ "-" ++ f2 ++ "-" ++ f3 ++ "-" ++ f4 ++ "-" ++ rest /\
    Str.count "-" f1 = 0 /\ Str.count "-" f2 = 0 /\
    Str.count "-" f3 = 0 /\ Str.count "-" f4 = 0 /\
    r = ImageInfo.mk filename url size mdate f3 f4 rest ty.
Proof.
  intros Hf Hr.
  destruct (ImageInfo.FILETYPE_REGEX_match filename) as [[stem ty]|] eqn:Hm.
  - destruct (Nat.lt_ge_cases (Str.count "-" stem) 4) as [Hlt|Hge].
    + rewrite (from_url_few_fields urlparse_path url size mdate filename stem ty
                 Hf Hm Hlt) in Hr. discriminate.
    + destruct (split_five stem Hge)
        as (f1 & f2 & f3 & f4 & rest & E & H1 & H2 & H3 & H4 & Hs).
      exists stem, ty, f1, f2, f3, f4, rest. repeat split; try assumption.
      unfold ImageInfo.from_url in Hr. rewrite Hf in Hr. cbn [bind] in Hr.
      rewrite Hm, Hs in Hr. congruence.
  - rewrite (from_url_no_match urlparse_path url size mdate filename Hf Hm) in Hr.
    discriminate.
Qed.

(** X5: for a basename without newline, [from_url] returns a record
    exactly when the basename is a type suffix behind a stem of five
    dash-separated fields or more. *)
Theorem from_url_succeeds_on_shape (urlparse_path : string -> string)
    (url : string) (size : option Z) (mdate : option datetime)
    (filename : string) :
  Str.item_m1 (Str.split "/" (urlparse_path url)) = OK filename ->
  Str.count Str.newline filename = 0 ->
  ((exists r, ImageInfo.from_url urlparse_path url size mdate = OK r) <->
   Shape.five_or_more_fields filename).
Proof.
  intros Hf Hnl. split.
  - intros (r & Hr).
    destruct (from_url_inv urlparse_path url size mdate filename r Hf Hr)
      as (stem & ty & f1 & f2 & f3 & f4 & rest & Hm & E & H1 & H2 & H3 & H4 & _).
    destruct (filetype_match_sound _ _ _ Hm Hnl) as [Hs Hty].
    exists stem, ty. repeat split; try assumption.
    rewrite E, !count_append, H1, H2, H3, H4. cbn. lia.
  - intros (stem & ty & E & Hty & Hc).
    assert (Hstem : Str.count Str.newline stem = 0).
    { rewrite E, count_append in Hnl. lia. }
    destruct (filetype_match_exists ty Hty stem Hstem) as (stem' & ty' & Hm).
    rewrite <- E in Hm.
    destruct (filetype_match_sound _ _ _ Hm Hnl) as [E' Hty'].
    assert (Hc' : 4 <= Str.count "-" stem').
    { assert (H : Str.count "-" (stem ++ ty) = Str.count "-" (stem' ++ ty'))
        by congruence.
      rewrite !count_append in H.
      rewrite (type_suffix_free "-" ty eq_refl Hty) in H.
      rewrite (type_suffix_free "-" ty' eq_refl Hty') in H. lia. }
    destruct (split_five stem' Hc')
      as (f1 & f2 & f3 & f4 & rest & _ & _ & _ & _ & _ & Hs).
    exists (ImageInfo.mk filename url size mdate f3 f4 rest ty').
    unfold ImageInfo.from_url. rewrite Hf. cbn [bind]. now rewrite Hm, Hs.
Qed.

Lemma from_url_succeeds_on_shape_witness :
  let url := bucket_url ++
    "/bin/pyportal/en_US/adafruit-circuitpython-pyportal-en_US-7.3.1.uf2" in
  (exists r, ImageInfo.from_url Urllib.path url None None = OK r) <->
  Shape.five_or_more_fields "adafruit-circuitpython-pyportal-en_US-7.3.1.uf2".
Proof.
  intros url.
  apply (from_url_succeeds_on_shape Urllib.path url None None
           "adafruit-circuitpython-pyportal-en_US-7.3.1.uf2");
    reflexivity.
Defined.

(** X6: a record that [from_url] returns keeps the URL, the size and the
    time it was given; its name is the basename; and, for a basename
    without newline, the name is two fields, the board, the language and
    the version joined by dashes and followed by the type, where the type
    is a type suffix and neither board nor language holds a dash. *)
Theorem parsed_record_is_consistent (urlparse_path : string -> string)
    (url : string) (size : option Z) (mdate : option datetime)
    (filename : string) (r : ImageInfo.t) :
  Str.item_m1 (Str.split "/" (urlparse_path url)) = OK filename ->
  Str.count Str.newline filename = 0 ->
  ImageInfo.from_url urlparse_path url size mdate = OK r ->
  ImageInfo.name r = filename /\ ImageInfo.url r = url /\
  ImageInfo.size r = size /\ ImageInfo.mdate r = mdate /\
  Shape.type_suffix (ImageInfo.type r) /\
  Str.count "-" (ImageInfo.board r) = 0 /\
  Str.count "-" (ImageInfo.language r) = 0 /\
  exists f1 f2,
    Str.count "-" f1 = 0 /\ Str.count "-" f2 = 0 /\
    ImageInfo.name r =
    f1 ++ "-" ++ f2 ++ "-" ++ ImageInfo.board r ++ "-" ++
    ImageInfo.language r ++ "-" ++ ImageInfo.version r ++ ImageInfo.type r.
Proof.
  intros Hf Hnl Hr.
  destruct (from_url_inv urlparse_path url size mdate filename r Hf Hr)
    as (stem & ty & f1 & f2 & f3 & f4 & rest & Hm & E & H1 & H2 & H3 & H4 & ->).
  destruct (filetype_match_sound _ _ _ Hm Hnl) as [Hs Hty].
  cbn [ImageInfo.name ImageInfo.url ImageInfo.size ImageInfo.mdate
       ImageInfo.type ImageInfo.board ImageInfo.language ImageInfo.version].
  repeat split; try assumption.
  exists f1, f2. repeat split; try assumption.
  rewrite Hs, E. repeat (rewrite append_assoc; cbn [String.append]).
  reflexivity.
Qed.

Lemma parsed_record_is_consistent_witness :
  let url := bucket_url ++
    "/bin/pyportal/en_US/adafruit-circuitpython-pyportal-en_US-8.0.0-beta.1.uf2" in
  let r := ImageInfo.mk "adafruit-circuitpython-pyportal-en_US-8.0.0-beta.1.uf2"
             url (Some 1025%Z) (Some later_time) "pyportal" "en_US"
             "8.0.0-beta.1" ".uf2" in
  Shape.type_suffix (ImageInfo.type r) /\
  Str.count "-" (ImageInfo.board r) = 0.
Proof.
  intros url r.
  pose proof (parsed_record_is_consistent Urllib.path url (Some 1025%Z)
                (Some later_time)
                "adafruit-circuitpython-pyportal-en_US-8.0.0-beta.1.uf2" r
                eq_refl eq_refl eq_refl) as H.
  split; [apply H | apply H].
Defined.

(** ** The catalog queries, continued *)

Lemma comprehension_one_raises {A B : Type} (f : A -> result B) (l : list A) :
  Exists (fun x => exists e, f x = Raise e) l ->
  exists e, comprehension f l = Raise e.
Proof.
  induction l as [|x l IH]; intros H; [inversion H|].
  cbn [comprehension]. destruct (f x) as [y|e] eqn:E.
  - inversion H as [? ? (e & He) | ? ? Hl]; subst; [congruence|].
    destruct (IH Hl) as (e & ->). now exists e.
  - now exists e.
Qed.

Lemma comprehension_map {A B C : Type} (f : A -> result B)
    (proj : B -> C) (g : A -> C) (l : list A) :
  (forall x y, f x = OK y -> proj y = g x) ->
  forall ys, comprehension f l = OK ys -> map proj ys = map g l.
Proof.
  intros Hf. induction l as [|x l IH]; cbn; intros ys.
  - now intros [= <-].
  - destruct (f x) as [y|] eqn:E; cbn; [|discriminate].
    destruct (comprehension f l) as [ys'|]; cbn; [|discriminate].
    intros [= <-]. cbn. now rewrite (Hf _ _ E), (IH ys').
Qed.

Lemma from_url_fields (urlparse_path : string -> string) (url : string)
    (size : option Z) (mdate : option datetime) (r : ImageInfo.t) :
  ImageInfo.from_url urlparse_path url size mdate = OK r ->
  ImageInfo.url r = url /\ ImageInfo.size r = size /\ ImageInfo.mdate r = mdate.
Proof.
  unfold ImageInfo.from_url.
  destruct (Str.item_m1 _) as [filename|]; cbn [bind]; [|discriminate].
  destruct (ImageInfo.FILETYPE_REGEX_match filename) as [[stem ty]|]; [|discriminate].
  destruct (Str.split_max "-" stem 4) as [|a [|b [|c [|d [|e [|f l]]]]]];
    try discriminate.
  intros [= <-]. repeat split.
Qed.

(** X7: one key that [from_url] rejects spoils the whole listing:
    [list_images] raises, [list_versions] yields nothing before it ends
    with that exception, and [get] raises it too. *)
Theorem one_bad_key_spoils_the_listing
    (urlparse_path : string -> string) (urljoin : string -> string -> string)
    (b_url : string) (s3_list : string -> document) (o : options) :
  Exists (fun cont =>
            exists e,
              ImageInfo.from_url urlparse_path (urljoin b_url (Key cont))
                (Some (Size cont)) (Some (LastModified cont)) = Raise e)
         (contents (s3_list ("bin/" ++ opt_board o ++ "/" ++ opt_language o ++ "/"))) ->
  exists e,
    FirmwareDownloader.list_images urlparse_path urljoin b_url s3_list
      (opt_board o) (opt_language o) = Raise e /\
    (forall search,
        FirmwareDownloader.list_versions urlparse_path urljoin b_url s3_list
          (opt_board o) (opt_language o) search = mktrace [] (Some e)) /\
    Main.get urlparse_path urljoin b_url s3_list o = Raise e.
Proof.
  intros H.
  assert (Hl : exists e,
             FirmwareDownloader.list_images urlparse_path urljoin b_url s3_list
               (opt_board o) (opt_language o) = Raise e).
  { unfold FirmwareDownloader.list_images. apply comprehension_one_raises.
    unfold FirmwareDownloader.parse_contents. apply Exists_exists.
    apply Exists_exists in H. destruct H as (cont & Hin & e & He).
    exists (urljoin b_url (Key cont), Size cont, LastModified cont).
    split; [|now exists e].
    apply in_map_iff. now exists cont. }
  destruct Hl as (e & Hl). exists e. split; [exact Hl|]. split.
  - intros search. unfold FirmwareDownloader.list_versions. now rewrite Hl.
  - unfold Main.get. cbn [opt_board opt_language]. now rewrite Hl.
Qed.

Lemma one_bad_key_spoils_the_listing_witness :
  exists e,
    Main.get Urllib.path Urllib.join bucket_url
      (fun _ => mkdocument
         [ mkContents
             "bin/pyportal/en_US/adafruit-circuitpython-pyportal-en_US-7.3.1.uf2"
             1024 sample_time;
           mkContents "bin/pyportal/en_US/not-a-valid-name" 7 sample_time ] [])
      (mkoptions "pyportal" "en_US" None None false false)
    = Raise e.
Proof.
  destruct (one_bad_key_spoils_the_listing Urllib.path Urllib.join bucket_url
              (fun _ => mkdocument
                 [ mkContents
                     "bin/pyportal/en_US/adafruit-circuitpython-pyportal-en_US-7.3.1.uf2"
                     1024 sample_time;
                   mkContents "bin/pyportal/en_US/not-a-valid-name" 7 sample_time ] [])
              (mkoptions "pyportal" "en_US" None None false false))
    as (e & _ & _ & He).
  - apply Exists_cons_tl. apply Exists_cons_hd.
    exists AttributeError. vm_compute. reflexivity.
  - now exists e.
Defined.

(** X8: when [list_images] returns, its records are the entries of the
    listing, one for one and in order: the URL of each is the key joined
    to the bucket URL, and its size and time are those of the entry. *)
Theorem list_images_follows_the_listing
    (urlparse_path : string -> string) (urljoin : string -> string -> string)
    (b_url : string) (s3_list : string -> document)
    (board language : string) (images : list ImageInfo.t) :
  FirmwareDownloader.list_images urlparse_path urljoin b_url s3_list
    board language = OK images ->
  let entries := contents (s3_list ("bin/" ++ board ++ "/" ++ language ++ "/")) in
  map ImageInfo.url images = map (fun cont => urljoin b_url (Key cont)) entries /\
  map ImageInfo.size images = map (fun cont => Some (Size cont)) entries /\
  map ImageInfo.mdate images = map (fun cont => Some (LastModified cont)) entries.
Proof.
  intros H. cbv zeta.
  unfold FirmwareDownloader.list_images, FirmwareDownloader.parse_contents in H.
  match type of H with
  | comprehension ?f _ = _ =>
      assert (Hf : forall entry r,
                 f entry = OK r ->
                 ImageInfo.url r = fst (fst entry) /\
                 ImageInfo.size r = Some (snd (fst entry)) /\
                 ImageInfo.mdate r = Some (snd entry))
  end.
  { intros [[key size] date] r Hr. now apply from_url_fields in Hr. }
  repeat split.
  - rewrite (comprehension_map _ ImageInfo.url (fun entry => fst (fst entry)) _
               (fun entry r Hr => proj1 (Hf entry r Hr)) _ H).
    now rewrite map_map.
  - rewrite (comprehension_map _ ImageInfo.size
               (fun entry => Some (snd (fst entry))) _
               (fun entry r Hr => proj1 (proj2 (Hf entry r Hr))) _ H).
    now rewrite map_map.
  - rewrite (comprehension_map _ ImageInfo.mdate
               (fun entry => Some (snd entry)) _
               (fun entry r Hr => proj2 (proj2 (Hf entry r Hr))) _ H).
    now rewrite map_map.
Qed.

Example sample_images_are_listed : sample_images = OK sample_records.
Proof. vm_compute. reflexivity. Qed.

Lemma list_images_follows_the_listing_witness :
  map ImageInfo.size sample_records
  = map (fun cont => Some (Size cont))
        (contents (sample_bucket ("bin/" ++ "pyportal" ++ "/" ++ "en_US" ++ "/"))).
Proof.
  refine (proj1 (proj2 (list_images_follows_the_listing Urllib.path Urllib.join
                          bucket_url sample_bucket "pyportal" "en_US"
                          sample_records _))).
  vm_compute. reflexivity.
Defined.

(** *** Boards and languages *)

Lemma split_length (sep : ascii) (s : string) :
  length (Str.split sep s) = S (Str.count sep s).
Proof.
  induction s as [|c r IH]; [reflexivity|].
  cbn [Str.split Str.count]. destruct (Ascii.eqb c sep).
  - cbn [length]. now rewrite IH.
  - destruct (Str.split sep r) eqn:E; [now apply split_not_empty in E|].
    cbn [length] in *. now rewrite IH.
Qed.

Lemma item_m2_of_two (l : list string) :
  2 <= length l -> exists x, Str.item_m2 l = OK x.
Proof.
  intros H. unfold Str.item_m2. rewrite <- length_rev in H.
  destruct (rev l) as [|a [|b t]]; cbn in H; try lia. now exists b.
Qed.

Lemma item_m2_of_one (l : list string) :
  length l <= 1 -> Str.item_m2 l = Raise IndexError.
Proof.
  intros H. unfold Str.item_m2. rewrite <- length_rev in H.
  destruct (rev l) as [|a [|b t]]; cbn in H; try lia; reflexivity.
Qed.

(** The name of a directory URL: what stands between its last two slashes. *)
Lemma item_m2_directory (base name : string) :
  Str.count "/" name = 0 ->
  Str.item_m2 (Str.split "/" (base ++ "/" ++ name ++ "/")) = OK name.
Proof.
  intros H. cbn [String.append].
  rewrite split_at_separator, split_at_separator, (split_free _ _ H).
  unfold Str.item_m2. cbn [Str.split]. rewrite rev_app_distr. reflexivity.
Qed.

Lemma yield_names_directories (keys names : list string) :
  Forall2 (fun key name =>
             Str.count "/" name = 0 /\
             exists base, key = base ++ "/" ++ name ++ "/") keys names ->
  FirmwareDownloader.yield_names None keys = mktrace names None.
Proof.
  induction 1 as [|key name keys names (Hname & base & ->) _ IH]; [reflexivity|].
  cbn [FirmwareDownloader.yield_names FirmwareDownloader.search_matches].
  rewrite (item_m2_directory base name Hname), IH. reflexivity.
Qed.

(** X9: without a search string [list_boards] and [list_languages] yield
    the directory names of the common prefixes, in order and without an
    exception, whenever each joined URL ends with a slash, the name and a
    slash. *)
Theorem listing_yields_directory_names
    (urljoin : string -> string -> string)
    (b_url : string) (s3_list : string -> document)
    (board : string) (boards languages : list string) :
  Forall2 (fun prefix name =>
             Str.count "/" name = 0 /\
             exists base, urljoin b_url prefix = base ++ "/" ++ name ++ "/")
          (common_prefixes (s3_list "bin/")) boards ->
  Forall2 (fun prefix name =>
             Str.count "/" name = 0 /\
             exists base, urljoin b_url prefix = base ++ "/" ++ name ++ "/")
          (common_prefixes (s3_list ("bin/" ++ board ++ "/"))) languages ->
  FirmwareDownloader.list_boards urljoin b_url s3_list None
  = mktrace boards None /\
  FirmwareDownloader.list_languages urljoin b_url s3_list board None
  = mktrace languages None.
Proof.
  assert (Hmap : forall prefixes names,
             Forall2 (fun prefix name =>
                        Str.count "/" name = 0 /\
                        exists base,
                          urljoin b_url prefix = base ++ "/" ++ name ++ "/")
                     prefixes names ->
             Forall2 (fun key name =>
                        Str.count "/" name = 0 /\
                        exists base, key = base ++ "/" ++ name ++ "/")
                     (map (fun prefix => urljoin b_url prefix) prefixes) names).
  { induction 1; cbn; constructor; assumption. }
  intros Hb Hl. split.
  - unfold FirmwareDownloader.list_boards,
      FirmwareDownloader.parse_common_prefixes.
    apply yield_names_directories, Hmap, Hb.
  - unfold FirmwareDownloader.list_languages,
      FirmwareDownloader.parse_common_prefixes.
    apply yield_names_directories, Hmap, Hl.
Qed.

Lemma listing_yields_directory_names_witness :
  FirmwareDownloader.list_boards Urllib.join bucket_url sample_bucket None
  = mktrace ["feather_m4_express"; "pyportal"] None /\
  FirmwareDownloader.list_languages Urllib.join bucket_url sample_bucket
    "pyportal" None
  = mktrace ["de_DE"; "en_US"] None.
Proof.
  apply (listing_yields_directory_names Urllib.join bucket_url sample_bucket
           "pyportal" ["feather_m4_express"; "pyportal"] ["de_DE"; "en_US"]).
  - repeat constructor;
      exists (bucket_url ++ "/bin"); reflexivity.
  - repeat constructor;
      exists (bucket_url ++ "/bin/pyportal"); reflexivity.
Defined.

(** X10: the loop behind [list_boards] and [list_languages] ends without
    an exception when every key holds a slash, and then yields one name
    for each key the search string is found in. *)
Theorem names_of_keys_with_slash (search : option string)
    (keys : list string) :
  Forall (fun key => 1 <= Str.count "/" key) keys ->
  raised (FirmwareDownloader.yield_names search keys) = None /\
  length (yielded (FirmwareDownloader.yield_names search keys))
  = length (filter (FirmwareDownloader.search_matches search) keys).
Proof.
  induction 1 as [|key keys Hkey _ IH]; [split; reflexivity|].
  cbn [FirmwareDownloader.yield_names filter].
  destruct (FirmwareDownloader.search_matches search key); [|exact IH].
  destruct (item_m2_of_two (Str.split "/" key)) as (x & ->).
  - rewrite split_length. lia.
  - cbn [yield_then raised yielded length]. destruct IH as [-> ->]. now split.
Qed.

Lemma names_of_keys_with_slash_witness :
  raised (FirmwareDownloader.yield_names (Some "port")
            ["https://host/bin/pyportal/"; "https://host/bin/feather/"]) = None /\
  length (yielded (FirmwareDownloader.yield_names (Some "port")
                     ["https://host/bin/pyportal/"; "https://host/bin/feather/"]))
  = length (filter (FirmwareDownloader.search_matches (Some "port"))
              ["https://host/bin/pyportal/"; "https://host/bin/feather/"]).
Proof.
  apply (names_of_keys_with_slash (Some "port")
           ["https://host/bin/pyportal/"; "https://host/bin/feather/"]).
  repeat constructor; cbn; lia.
Defined.

(** X11: a key without a slash that the search string is found in ends
    the loop with [IndexError]; the names of the keys before it have been
    yielded, and nothing of what follows is. *)
Theorem key_without_slash_ends_the_listing (search : option string)
    (before : list string) (key : string) (after : list string) :
  Forall (fun k => 1 <= Str.count "/" k) before ->
  Str.count "/" key = 0 ->
  FirmwareDownloader.search_matches search key = true ->
  FirmwareDownloader.yield_names search (before ++ key :: after)%list
  = mktrace (yielded (FirmwareDownloader.yield_names search before))
            (Some IndexError).
Proof.
  intros Hb Hkey Hs. induction Hb as [|k before Hk _ IH].
  - cbn [app FirmwareDownloader.yield_names yielded]. rewrite Hs.
    rewrite item_m2_of_one; [reflexivity|].
    rewrite split_length. lia.
  - cbn [app FirmwareDownloader.yield_names].
    destruct (FirmwareDownloader.search_matches search k); [|exact IH].
    destruct (item_m2_of_two (Str.split "/" k)) as (x & ->).
    + rewrite split_length. lia.
    + rewrite IH. reflexivity.
Qed.

Lemma key_without_slash_ends_the_listing_witness :
  FirmwareDownloader.yield_names None
    (["https://host/bin/pyportal/"] ++ "pyportal" :: ["https://host/bin/feather/"])%list
  = mktrace ["pyportal"] (Some IndexError).
Proof.
  apply (key_without_slash_ends_the_listing None
           ["https://host/bin/pyportal/"] "pyportal" ["https://host/bin/feather/"]).
  - repeat constructor; cbn; lia.
  - reflexivity.
  - reflexivity.
Defined.

(** ** The [get] command, continued *)

From Stdlib Require Import Permutation.

(** X12: a type filter given without its dot selects what the same
    filter with the dot selects; a filter that is normalized stays as it
    is. *)
Theorem type_filter_without_dot
    (urlparse_path : string -> string) (urljoin : string -> string -> string)
    (b_url : string) (s3_list : string -> document)
    (o : options) (ty : string) :
  ty <> "" ->
  Str.startswith ty "." = false ->
  Main.get urlparse_path urljoin b_url s3_list
    (mkoptions (opt_board o) (opt_language o) (opt_version o) (Some ty)
               (opt_prerelease o) (opt_latest o))
  = Main.get urlparse_path urljoin b_url s3_list
      (mkoptions (opt_board o) (opt_language o) (opt_version o)
                 (Some ("." ++ ty)) (opt_prerelease o) (opt_latest o)) /\
  Main.normalize_type (Main.normalize_type (Some ty))
  = Main.normalize_type (Some ty).
Proof.
  intros Hne Hdot.
  assert (H1 : Main.normalize_type (Some ty) = Some ("." ++ ty)).
  { unfold Main.normalize_type. rewrite Hdot.
    destruct (String.eqb_spec ty ""); [contradiction | reflexivity]. }
  assert (H2 : Main.normalize_type (Some ("." ++ ty)) = Some ("." ++ ty)).
  { unfold Main.normalize_type.
    replace (Str.startswith ("." ++ ty) ".") with true; [now rewrite andb_false_r|].
    symmetry. apply startswith_spec. now exists ty. }
  split.
  - unfold Main.get.
    cbn [opt_board opt_language opt_version opt_type opt_prerelease opt_latest].
    now rewrite H1, H2.
  - now rewrite H1, H2.
Qed.

Lemma type_filter_without_dot_witness :
  Main.get Urllib.path Urllib.join bucket_url sample_bucket
    (mkoptions "pyportal" "en_US" None (Some "bin") false false)
  = Main.get Urllib.path Urllib.join bucket_url sample_bucket
      (mkoptions "pyportal" "en_US" None (Some ("." ++ "bin")) false false).
Proof.
  apply (proj1 (type_filter_without_dot Urllib.path Urllib.join bucket_url
                  sample_bucket
                  (mkoptions "pyportal" "en_US" None None false false) "bin"
                  ltac:(discriminate) eq_refl)).
Defined.

Lemma endswith_empty (s : string) : Str.endswith s "" = true.
Proof. apply endswith_spec. exists s. now rewrite append_empty_r. Qed.

(** X13: an empty type filter filters nothing: [get] ends as it does
    without a type filter. *)
Theorem empty_type_filter_is_none
    (urlparse_path : string -> string) (urljoin : string -> string -> string)
    (b_url : string) (s3_list : string -> document) (o : options) :
  Main.get urlparse_path urljoin b_url s3_list
    (mkoptions (opt_board o) (opt_language o) (opt_version o) (Some "")
               (opt_prerelease o) (opt_latest o))
  = Main.get urlparse_path urljoin b_url s3_list
      (mkoptions (opt_board o) (opt_language o) (opt_version o) None
                 (opt_prerelease o) (opt_latest o)).
Proof.
  unfold Main.get.
  cbn [opt_board opt_language opt_version opt_type opt_prerelease opt_latest
       Main.normalize_type String.eqb andb negb].
  destruct (FirmwareDownloader.list_images _ _ _ _ _ _) as [images|e];
    cbn [bind]; [|reflexivity].
  unfold Main.selection.
  destruct (Main.sort_results images) as [results|e]; cbn [bind]; [|reflexivity].
  rewrite !filter_results_filter. do 2 f_equal.
  apply filter_ext. intros r. unfold keeps. cbn [opt_type opt_version].
  now rewrite endswith_empty.
Qed.

(** *** What is selected *)

Lemma pairs_filter {A : Type} (R : A -> A -> Prop) (p : A -> bool)
    (l : list A) :
  ForallOrdPairs R l -> ForallOrdPairs R (filter p l).
Proof.
  induction 1 as [|a l Ha _ IH]; cbn; [constructor|].
  destruct (p a); [|exact IH].
  constructor; [|exact IH].
  apply Forall_forall. intros b Hb. apply filter_In in Hb.
  rewrite Forall_forall in Ha. now apply Ha.
Qed.

Lemma sort_results_inv (images results : list ImageInfo.t) :
  Main.sort_results images = OK results ->
  Forall dated images /\
  results = sort_keyed (by_dtv date_of ImageInfo.type ImageInfo.version) true images.
Proof.
  intros H.
  destruct (Forall_Exists_dec dated) with (l := images) as [Hd|Hu].
  - intros r. unfold dated. destruct (ImageInfo.mdate r); [left | right]; congruence.
  - split; [exact Hd|]. rewrite (sort_results_dated images Hd) in H. congruence.
  - destruct (sort_undated images Hu) as [Hr _]. congruence.
Qed.

Lemma sort_descending {A K : Type} `{PyOrdLaws K} (k : A -> K) (l : list A) :
  ForallOrdPairs (fun a b => py_lt (k a) (k b) = false) (sort_keyed k true l).
Proof.
  rewrite sort_keyed_reverse.
  apply (pairs_rev (le k)). apply isort_sorted.
Qed.

(** X14: the record that the selection returns is one of the images,
    passes the filter, and no image that passes the filter is greater in
    (date, type, version); in particular none has a later date. *)
Theorem selected_is_the_greatest (o : options)
    (images : list ImageInfo.t) (selected : ImageInfo.t) :
  Main.selection o images = OK (Selected selected) ->
  In selected images /\ Keeps o selected /\
  forall r,
    In r images -> Keeps o r ->
    py_lt (triple (date_of selected) (ImageInfo.type selected)
                  (ImageInfo.version selected))
          (triple (date_of r) (ImageInfo.type r) (ImageInfo.version r)) = false /\
    py_lt (date_of selected) (date_of r) = false.
Proof.
  unfold Main.selection.
  destruct (Main.sort_results images) as [results|e] eqn:Hs; cbn [bind];
    [|discriminate].
  destruct (sort_results_inv images results Hs) as [Hd ->].
  rewrite filter_results_filter.
  set (k := by_dtv date_of ImageInfo.type ImageInfo.version).
  pose proof (pairs_filter _ (keeps o) _ (sort_descending k images)) as Hsorted.
  destruct (filter (keeps o) (sort_keyed k true images)) as [|first rest] eqn:Hf;
    cbn [Main.select]; [discriminate|].
  intros [= ->].
  assert (Hin : In selected (filter (keeps o) (sort_keyed k true images))).
  { rewrite Hf. now left. }
  apply filter_In in Hin. destruct Hin as [Hin Hk].
  split; [now apply sort_keyed_in in Hin|].
  split; [now apply keeps_spec|].
  intros r Hr Hkr.
  assert (Hlt : py_lt (k selected) (k r) = false).
  { assert (Hr' : In r (selected :: rest)).
    { rewrite <- Hf. apply filter_In. split.
      - now apply sort_keyed_in.
      - now apply keeps_spec. }
    destruct Hr' as [<-|Hr']; [apply lt_irrefl|].
    inversion Hsorted as [|? ? Hall _]. subst.
    rewrite Forall_forall in Hall. now apply Hall. }
  split; [exact Hlt|].
  unfold k, by_dtv, triple in Hlt. cbn [py_lt PyOrd_tuple fst snd] in Hlt.
  destruct (py_eq (date_of selected) (date_of r)) eqn:E; [|exact Hlt].
  apply eq_spec in E. rewrite E. apply lt_irrefl.
Qed.

Lemma selected_is_the_greatest_witness :
  In (sample_record "8.0.0-beta.1" ".uf2" 1025 later_time) sample_records.
Proof.
  refine (proj1 (selected_is_the_greatest
                   (mkoptions "pyportal" "en_US" None None false false)
                   sample_records
                   (sample_record "8.0.0-beta.1" ".uf2" 1025 later_time) _)).
  vm_compute. reflexivity.
Defined.

Lemma insort_permutation {A K : Type} `{PyOrd K} (k : A -> K) (x : A)
    (s : list A) :
  Permutation (x :: s) (insort k x s).
Proof.
  induction s as [|y r IH]; cbn; [reflexivity|].
  destruct (py_lt (k x) (k y)); [reflexivity|].
  rewrite perm_swap. now constructor.
Qed.

Lemma sort_keyed_permutation {A K : Type} `{PyOrdLaws K} (k : A -> K)
    (l : list A) :
  Permutation l (sort_keyed k true l).
Proof.
  rewrite sort_keyed_reverse, <- Permutation_rev.
  induction l as [|x l IH]; [reflexivity|].
  change (isort k (x :: l)) with (insort k x (isort k l)).
  rewrite <- insort_permutation. now constructor.
Qed.

(** X15: when the three sorts return, their result is a permutation of
    the images: no record is lost and none is added. *)
Theorem sort_results_permutes (images results : list ImageInfo.t) :
  Main.sort_results images = OK results -> Permutation images results.
Proof.
  intros H. destruct (sort_results_inv images results H) as [_ ->].
  apply sort_keyed_permutation.
Qed.

Lemma sort_results_permutes_witness :
  Permutation sample_records sample_results.
Proof.
  refine (sort_results_permutes sample_records sample_results _).
  vm_compute. reflexivity.
Defined.

(** X16: once [list_images] has returned its records, sorting,
    filtering and choosing raise nothing, whatever the options: the
    selection ends with the no-match outcome or with one of the listed
    records. *)
Theorem selection_ends_once_listed
    (urlparse_path : string -> string) (urljoin : string -> string -> string)
    (b_url : string) (s3_list : string -> document)
    (board language : string) (o : options) (images : list ImageInfo.t) :
  FirmwareDownloader.list_images urlparse_path urljoin b_url s3_list
    board language = OK images ->
  Main.selection o images = OK NoImagesFound \/
  exists selected,
    Main.selection o images = OK (Selected selected) /\ In selected images.
Proof.
  intros Hl.
  pose proof (list_images_dated _ _ _ _ _ _ _ Hl) as Hd.
  unfold Main.selection. rewrite (sort_results_dated images Hd). cbn [bind].
  rewrite filter_results_filter.
  destruct (filter _ _) as [|first rest] eqn:Hf; cbn [Main.select];
    [now left|].
  right. exists first. split; [reflexivity|].
  assert (Hin : In first (first :: rest)) by now left.
  rewrite <- Hf in Hin. apply filter_In in Hin. destruct Hin as [Hin _].
  now apply sort_keyed_in in Hin.
Qed.

Lemma selection_ends_once_listed_witness :
  Main.selection (mkoptions "pyportal" "en_US" None None false false)
    sample_records = OK NoImagesFound \/
  exists selected,
    Main.selection (mkoptions "pyportal" "en_US" None None false false)
      sample_records = OK (Selected selected) /\
    In selected sample_records.
Proof.
  refine (selection_ends_once_listed Urllib.path Urllib.join bucket_url
            sample_bucket "pyportal" "en_US"
            (mkoptions "pyportal" "en_US" None None false false)
            sample_records _).
  vm_compute. reflexivity.
Defined.

(** X17: the three sorts are stable as a whole: the records that share
    one (date, type, version) stand in the result in the order of the
    listing. *)
Theorem sort_results_keeps_listing_order (images results : list ImageInfo.t)
    (key : date * (string * string)) :
  Main.sort_results images = OK results ->
  filter (fun r => py_eq (triple (date_of r) (ImageInfo.type r)
                                 (ImageInfo.version r)) key) results
  = filter (fun r => py_eq (triple (date_of r) (ImageInfo.type r)
                                   (ImageInfo.version r)) key) images.
Proof.
  intros H. destruct (sort_results_inv images results H) as [_ ->].
  set (k := by_dtv date_of ImageInfo.type ImageInfo.version).
  change (filter (fun r => py_eq (k r) key) (sort_keyed k true images)
          = filter (fun r => py_eq (k r) key) images).
  rewrite sort_keyed_reverse, filter_rev, (isort_filter k).
  rewrite (isort_one_key k key); [apply rev_involutive|].
  apply Forall_forall. intros r Hr. apply filter_In in Hr.
  now apply eq_spec.
Qed.

Lemma sort_results_keeps_listing_order_witness :
  filter (fun r => py_eq (triple (date_of r) (ImageInfo.type r)
                                 (ImageInfo.version r))
                         (mkdate 2023 3 1, (".uf2", "8.0.0-beta.1")))
         sample_results
  = filter (fun r => py_eq (triple (date_of r) (ImageInfo.type r)
                                   (ImageInfo.version r))
                           (mkdate 2023 3 1, (".uf2", "8.0.0-beta.1")))
           sample_records.
Proof.
  refine (sort_results_keeps_listing_order sample_records sample_results
            (mkdate 2023 3 1, (".uf2", "8.0.0-beta.1")) _).
  vm_compute. reflexivity.
Defined.

(** *** The longest type suffix *)

Lemma lazy_stem_is_shortest (s : string) :
  forall stem ty a b t,
    ImageInfo.FILETYPE_REGEX_match s = Some (stem, ty) ->
    s = a ++ b ->
    ImageInfo.suffix_scan ImageInfo.NeedDot b = Some t ->
    String.length stem <= String.length a.
Proof.
  induction s as [|c r IH]; intros stem ty a b t.
  - cbn. discriminate.
  - rewrite filetype_match_unfold.
    destruct (ImageInfo.suffix_scan ImageInfo.NeedDot (String c r)) as [t0|] eqn:Es.
    + intros [= <- <-] _ _. cbn. lia.
    + destruct (Ascii.eqb c Str.newline); [discriminate|].
      intros H Hs Hb. apply option_map_some in H.
      destruct H as ([stem' ty'] & H & [= -> ->]).
      destruct a as [|x a].
      * cbn in Hs. subst b. congruence.
      * cbn in Hs. injection Hs as -> ->.
        cbn [String.length fst]. apply le_n_S. eapply IH; eauto.
Qed.

Lemma length_append (a b : string) :
  String.length (a ++ b) = String.length a + String.length b.
Proof. induction a as [|c a IH]; cbn; [reflexivity | now rewrite IH]. Qed.

(** X18: the type of a parsed record is the longest type suffix its name
    ends with: however the name is cut into a stem and a type suffix, the
    suffix is no longer than the type of the record. *)
Theorem parsed_type_is_longest (urlparse_path : string -> string)
    (url : string) (size : option Z) (mdate : option datetime)
    (filename : string) (r : ImageInfo.t) (stem ty : string) :
  Str.item_m1 (Str.split "/" (urlparse_path url)) = OK filename ->
  Str.count Str.newline filename = 0 ->
  ImageInfo.from_url urlparse_path url size mdate = OK r ->
  filename = stem ++ ty ->
  Shape.type_suffix ty ->
  String.length ty <= String.length (ImageInfo.type r).
Proof.
  intros Hf Hnl Hr Hs Hty.
  destruct (from_url_inv urlparse_path url size mdate filename r Hf Hr)
    as (stem' & ty' & f1 & f2 & f3 & f4 & rest & Hm & _ & _ & _ & _ & _ & ->).
  cbn [ImageInfo.type].
  pose proof (lazy_stem_is_shortest filename stem' ty' stem ty ty Hm Hs
                (suffix_scan_complete ty Hty)) as Hle.
  destruct (filetype_match_sound _ _ _ Hm Hnl) as [E _].
  assert (Hlen : String.length (stem ++ ty) = String.length (stem' ++ ty'))
    by congruence.
  rewrite !length_append in Hlen. lia.
Qed.

Lemma parsed_type_is_longest_witness :
  String.length ".uf2" <= String.length ".a.uf2".
Proof.
  refine (parsed_type_is_longest Urllib.path
            (bucket_url ++ "/bin/pyportal/en_US/adafruit-circuitpython-pyportal-en_US-1.0.a.uf2")
            None None "adafruit-circuitpython-pyportal-en_US-1.0.a.uf2"
            (ImageInfo.mk "adafruit-circuitpython-pyportal-en_US-1.0.a.uf2"
               (bucket_url ++ "/bin/pyportal/en_US/adafruit-circuitpython-pyportal-en_US-1.0.a.uf2")
               None None "pyportal" "en_US" "1.0" ".a.uf2")
            "adafruit-circuitpython-pyportal-en_US-1.0.a" ".uf2"
            _ _ _ _ _).
  - vm_compute. reflexivity.
  - vm_compute. reflexivity.
  - vm_compute. reflexivity.
  - reflexivity.
  - apply Shape.suffix_one. reflexivity.
Defined.

(** *** The empty search string *)

Lemma contains_empty (s : string) : Str.contains "" s = true.
Proof. apply contains_spec. now exists "", s. Qed.

Lemma yield_names_empty_search (keys : list string) :
  FirmwareDownloader.yield_names (Some "") keys
  = FirmwareDownloader.yield_names None keys.
Proof.
  induction keys as [|key rest IH]; [reflexivity|].
  cbn [FirmwareDownloader.yield_names FirmwareDownloader.search_matches].
  now rewrite contains_empty, IH.
Qed.

Lemma yield_versions_empty_search (images : list ImageInfo.t) :
  FirmwareDownloader.yield_versions (Some "") images
  = FirmwareDownloader.yield_versions None images.
Proof.
  induction images as [|image rest IH]; [reflexivity|].
  cbn [FirmwareDownloader.yield_versions FirmwareDownloader.search_matches].
  now rewrite contains_empty, IH.
Qed.

(** X19: an empty search string is found everywhere: the three listings
    yield with it what they yield without a search string. *)
Theorem empty_search_lists_everything
    (urlparse_path : string -> string) (urljoin : string -> string -> string)
    (b_url : string) (s3_list : string -> document) (board language : string) :
  FirmwareDownloader.list_boards urljoin b_url s3_list (Some "")
  = FirmwareDownloader.list_boards urljoin b_url s3_list None /\
  FirmwareDownloader.list_languages urljoin b_url s3_list board (Some "")
  = FirmwareDownloader.list_languages urljoin b_url s3_list board None /\
  FirmwareDownloader.list_versions urlparse_path urljoin b_url s3_list
    board language (Some "")
  = FirmwareDownloader.list_versions urlparse_path urljoin b_url s3_list
      board language None.
Proof.
  repeat split.
  - apply yield_names_empty_search.
  - apply yield_names_empty_search.
  - unfold FirmwareDownloader.list_versions.
    destruct (FirmwareDownloader.list_images _ _ _ _ _ _); [|reflexivity].
    now rewrite yield_versions_empty_search.
Qed.
